(** * GatherMate2Miner: the coordinate codec, the zone aggregator and the emitter

    A shallow embedding of the classes [Coordinate], [GathererEntry],
    [GathererZone] and [Aggregate] of [generate_data.py].

    Python objects that are mutated after construction ([Coordinate], whose
    [coord] field caches the key and is bumped on a collision) live in a
    store addressed by references, so that two entries naming the same
    [Coordinate] object see each other's updates.  Python floats are IEEE 754
    binary64 numbers and are modelled by the primitive floats, Python integers
    by [Z].  A call either returns, raises, or does not finish within the
    given number of loop iterations. *)

From Stdlib Require Import ZArith Floats String Ascii DecimalString Sorted Permutation Lia.
From stdpp Require Import base option list gmap.

Set Warnings "-inexact-float".
Open Scope Z_scope.

(** ** Outcomes of a call *)

Inductive exn : Set :=
| ValueError      (* math.floor of a NaN, int() of a malformed string *)
| OverflowError.  (* math.floor of an infinity *)

Inductive outcome (A : Type) : Type :=
| Return (a : A)   (* the call returns [a] *)
| Raise (e : exn)  (* an exception leaves the call *)
| Diverge.         (* the loop is still running when the fuel is spent *)

Arguments Return {A} a.
Arguments Raise {A} e.
Arguments Diverge {A}.

#[global] Instance outcome_ret : MRet outcome := fun A a => Return a.

#[global] Instance outcome_bind : MBind outcome := fun A B k m =>
  match m with
  | Return a => k a
  | Raise e => Raise e
  | Diverge => Diverge
  end.

(** ** Floats *)

(** [math.floor] on a float: the greatest integer below the value, as an
    unbounded integer; [ValueError] on a NaN and [OverflowError] on an
    infinity.  A finite float is [(-1)^s * m * 2^e]; shifting by a negative
    [e] divides rounding towards minus infinity. *)
Definition math_floor (f : float) : outcome Z :=
  match Prim2SF f with
  | S754_zero _ => Return 0
  | S754_infinity _ => Raise OverflowError
  | S754_nan => Raise ValueError
  | S754_finite s m e => Return (Z.shiftl (if s then Z.neg m else Z.pos m) e)
  end.

(** ** The store of [Coordinate] objects *)

Definition ref : Set := nat.

Module Coordinate.

(** [@dataclass class Coordinate: x: float; y: float; coord: int = 0] *)
Record t : Set := mk { x : float; y : float; coord : Z }.

#[global] Instance inhabited : Inhabited t := populate (mk 0 0 0).

(** The constructor call [Coordinate(x, y)]: [coord] takes its default. *)
Definition new (x y : float) : t := mk x y 0.

(** The generated [__eq__]: the tuples [(x, y, coord)] are compared, floats
    by IEEE equality and integers by value. *)
Definition eqb (a b : t) : bool :=
  (x a =? x b)%float && (y a =? y b)%float && (coord a =? coord b)%Z.

Definition set_coord (k : Z) (c : t) : t := mk (x c) (y c) k.

(** The right-hand side of the assignment in [as_gatherer_coord]:
    [math.floor((self.x/100)*10000+0.5)*1000000
     + math.floor((self.y/100)*10000+0.5)*100]. *)
Definition encode (vx vy : float) : outcome Z :=
  fx ← math_floor (vx / 100 * 10000 + 0.5)%float;
  fy ← math_floor (vy / 100 * 10000 + 0.5)%float;
  mret (fx * 1000000 + fy * 100).

(** [as_gatherer_coord(self)]: computes and stores the key when the field
    holds 0, and returns the field. *)
Definition as_gatherer_coord (self : ref) (h : gmap ref t) : outcome (Z * gmap ref t) :=
  let c := h !!! self in
  if (coord c =? 0)%Z then
    k ← encode (x c) (y c);
    mret (k, <[self := set_coord k c]> h)
  else mret (coord c, h).

(** [__repr__]: [str(self.as_gatherer_coord())]. *)
Definition repr (self : ref) (h : gmap ref t) : outcome (string * gmap ref t) :=
  '(k, h') ← as_gatherer_coord self h;
  mret (NilZero.string_of_int (Z.to_int k), h').

End Coordinate.

Abbreviation heap := (gmap ref Coordinate.t).

(** ** Built-ins: [int] on a string and [sorted] *)

Definition digit_of_ascii (c : ascii) : option Z :=
  let n := Z.of_nat (nat_of_ascii c) in
  if (48 <=? n) && (n <=? 57) then Some (n - 48) else None.

Fixpoint digits_value (acc : Z) (s : string) : outcome Z :=
  match s with
  | EmptyString => mret acc
  | String c s' =>
      match digit_of_ascii c with
      | Some d => digits_value (10 * acc + d) s'
      | None => Raise ValueError
      end
  end.

(** [int(s)] for a decimal numeral with an optional sign, the form every zone
    identifier of the zone table has; any other string is a [ValueError]. *)
Definition int (s : string) : outcome Z :=
  match s with
  | EmptyString => Raise ValueError
  | String "-" (String c s') => n ← digits_value 0 (String c s'); mret (- n)
  | String "+" (String c s') => digits_value 0 (String c s')
  | _ => digits_value 0 s
  end.

Section Sorted.
Context {A : Type} (lt : A → A → bool).

(** [a] goes in front of the first element that is not below it. *)
Fixpoint insert_sorted (a : A) (l : list A) : list A :=
  match l with
  | [] => [a]
  | b :: l' => if lt b a then b :: insert_sorted a l' else a :: b :: l'
  end.

(** [sorted(l)] with [lt] as [__lt__]: the stable ascending order. *)
Definition sorted (l : list A) : list A := foldr insert_sorted [] l.
End Sorted.

(** Sorting by an integer key computed beforehand. *)
Definition sorted_by_key {A : Type} (l : list (Z * A)) : list (Z * A) :=
  sorted (fun a b => fst a <? fst b) l.

Section SortedWith.
Context {A S : Type} (lt : A → A → S → outcome (bool * S)).

(** [sorted(l)] as the calls of [__lt__] it makes, each of which may raise
    and may write to the store: the element goes in front of the first one
    that is not below it, as in [insert_sorted]. *)


End SortedWith.

Definition tab : string := String "009" EmptyString.
Definition newline : string := String "010" EmptyString.

(** ** The classes *)

Module Zone.

(** [@dataclass(eq=True, unsafe_hash=True) class Zone: name: str; id: str] *)
Record t : Set := mk { name : string; id : string }.

Definition eqb (a b : t) : bool :=
  String.eqb (name a) (name b) && String.eqb (id a) (id b).

End Zone.

Module GathererEntry.

(** [@dataclass class GathererEntry: coordinate: Coordinate; entry_id: str];
    the [coordinate] field holds a reference to the object. *)
Record t : Set := mk { coordinate : ref; entry_id : string }.

(** [__lt__(self, other)]: both keys are read, [self]'s first. *)
Definition lt (self other : t) (h : heap) : outcome (bool * heap) :=
  '(a, h1) ← Coordinate.as_gatherer_coord (coordinate self) h;
  '(b, h2) ← Coordinate.as_gatherer_coord (coordinate other) h1;
  mret (a <? b, h2).

(** The line [__repr__] builds from the key read and the code:
    two tabs, "[key] = ", the code and a comma. *)
Definition line (k : Z) (code : string) : string :=
  (tab ++ tab ++ "[" ++ NilZero.string_of_int (Z.to_int k) ++ "] = " ++ code ++ ",")%string.

Definition repr (self : t) (h : heap) : outcome (string * heap) :=
  '(k, h') ← Coordinate.as_gatherer_coord (coordinate self) h;
  mret (line k (entry_id self), h').

End GathererEntry.

Module GathererZone.

(** [@dataclass class GathererZone: zone: Zone; entries: List[GathererEntry]] *)
Record t : Set := mk { zone : Zone.t; entries : list GathererEntry.t }.

(** [__lt__(self, other)]: [int(self.zone.id) < int(other.zone.id)]. *)
Definition lt (self other : t) : outcome bool :=
  a ← int (Zone.id (zone self));
  b ← int (Zone.id (zone other));
  mret (a <? b).

(** The keys of the entries, read in list order through
    [as_gatherer_coord].  A key read once is returned unchanged by every
    later read (lemma [as_gatherer_coord_again]), so the comparisons made by
    [sorted] and the calls of [str(entry)] see these keys. *)
Fixpoint keys (es : list GathererEntry.t) (h : heap)
  : outcome (list (Z * GathererEntry.t) * heap) :=
  match es with
  | [] => mret ([], h)
  | e :: es' =>
      '(k, h1) ← Coordinate.as_gatherer_coord (GathererEntry.coordinate e) h;
      '(ks, h2) ← keys es' h1;
      mret ((k, e) :: ks, h2)
  end.

(** [sorted(self.entries)], each entry with the key it is printed under.
    When several entries have no key this definition reports the exception
    of the first of them in list order; the comparisons of [sorted] may meet
    another of them first. *)
Definition sorted_entries (self : t) (h : heap)
  : outcome (list (Z * GathererEntry.t) * heap) :=
  '(ks, h') ← keys (entries self) h;
  mret (sorted_by_key ks, h').

Definition header (z : Zone.t) : string :=
  (tab ++ "[" ++ Zone.id z ++ "] = {" ++ newline)%string.

Definition footer : string := (tab ++ "}," ++ newline)%string.

Definition body (ks : list (Z * GathererEntry.t)) : string :=
  foldr (fun ke s =>
           (GathererEntry.line (fst ke) (GathererEntry.entry_id (snd ke)) ++ newline ++ s)%string)
        EmptyString ks.

(** [__repr__]: the header, one line per entry of [sorted(self.entries)],
    the footer. *)
Definition repr (self : t) (h : heap) : outcome (string * heap) :=
  '(ks, h') ← sorted_entries self h;
  mret ((header (zone self) ++ body ks ++ footer)%string, h').

End GathererZone.

Module WowheadObject.

(** The fields of a [WowheadObject] after its constructor has run;
    [coordinates] is the dict from zones to lists of [Coordinate] objects,
    in insertion order. *)
Record t : Set := mk {
  name : string;
  ids : list string;
  coordinates : list (Zone.t * list ref);
  gathermate_id : string
}.

End WowheadObject.

Module Aggregate.

(** [@dataclass class Aggregate: type: str; zones: List[GathererZone]] *)
Record t : Set := mk { type : string; zones : list GathererZone.t }.

(** The test of the [while] loop of [add]:
    [entry.coordinate in [x.coordinate for x in gatherer_zone.entries]].
    [in] accepts an element that is the same object or compares equal. *)
Definition contains (h : heap) (r : ref) (es : list GathererEntry.t) : bool :=
  existsb (fun e => Nat.eqb (GathererEntry.coordinate e) r
                    || Coordinate.eqb (h !!! GathererEntry.coordinate e) (h !!! r)) es.

(** The body of the [while] loop:
    [entry.coordinate.coord = entry.coordinate.as_gatherer_coord() + 1]. *)
Definition bump (r : ref) (h : heap) : outcome heap :=
  '(k, h1) ← Coordinate.as_gatherer_coord r h;
  mret (<[r := Coordinate.set_coord (k + 1) (h1 !!! r)]> h1).

(** The [while] loop, run for at most [fuel] iterations. *)
Fixpoint probe (fuel : nat) (r : ref) (es : list GathererEntry.t) (h : heap) : outcome heap :=
  if contains h r es then
    match fuel with
    | O => Diverge
    | S fuel' => h' ← bump r h; probe fuel' r es h'
    end
  else mret h.

(** The [for] loop of [add] over [self.zones], and the statement after it:
    the first bucket of an equal zone takes the entry once the loop has
    settled its key; without such a bucket a new one is appended. *)
Fixpoint add_zones (fuel : nat) (zone : Zone.t) (entry : GathererEntry.t)
                   (zs : list GathererZone.t) (h : heap)
  : outcome (list GathererZone.t * heap) :=
  match zs with
  | [] => mret ([GathererZone.mk zone [entry]], h)
  | gz :: rest =>
      if Zone.eqb (GathererZone.zone gz) zone then
        h' ← probe fuel (GathererEntry.coordinate entry) (GathererZone.entries gz) h;
        mret (GathererZone.mk (GathererZone.zone gz) (GathererZone.entries gz ++ [entry]) :: rest, h')
      else
        '(rest', h') ← add_zones fuel zone entry rest h;
        mret (gz :: rest', h')
  end.

(** [add(self, zone, entry)] *)
Definition add (fuel : nat) (self : t) (zone : Zone.t) (entry : GathererEntry.t) (h : heap)
  : outcome (t * heap) :=
  '(zs, h') ← add_zones fuel zone entry (zones self) h;
  mret (mk (type self) zs, h').

(** The innermost loop of [__init__]:
    [for coord in object.coordinates[zone]:
       self.add(zone, GathererEntry(coord, object.gathermate_id))]. *)
Fixpoint add_coords (fuel : nat) (self : t) (zone : Zone.t) (code : string)
                    (coords : list ref) (h : heap) : outcome (t * heap) :=
  match coords with
  | [] => mret (self, h)
  | c :: coords' =>
      '(self', h') ← add fuel self zone (GathererEntry.mk c code) h;
      add_coords fuel self' zone code coords' h'
  end.

(** [for zone in object.coordinates: ...] *)
Fixpoint add_object (fuel : nat) (self : t) (code : string)
                    (cs : list (Zone.t * list ref)) (h : heap) : outcome (t * heap) :=
  match cs with
  | [] => mret (self, h)
  | (zone, coords) :: cs' =>
      '(self', h') ← add_coords fuel self zone code coords h;
      add_object fuel self' code cs' h'
  end.

(** [for object in objects: ...] *)
Fixpoint add_objects (fuel : nat) (self : t) (objects : list WowheadObject.t) (h : heap)
  : outcome (t * heap) :=
  match objects with
  | [] => mret (self, h)
  | o :: objects' =>
      '(self', h') ← add_object fuel self (WowheadObject.gathermate_id o)
                                (WowheadObject.coordinates o) h;
      add_objects fuel self' objects' h'
  end.

(** [__init__(self, type, objects)]; every [while] loop gets [fuel]. *)
Definition init (fuel : nat) (type : string) (objects : list WowheadObject.t) (h : heap)
  : outcome (t * heap) :=
  add_objects fuel (mk type []) objects h.

(** The integer identifiers that [sorted(self.zones)] compares. *)
Fixpoint ids (zs : list GathererZone.t) : outcome (list (Z * GathererZone.t)) :=
  match zs with
  | [] => mret []
  | z :: zs' =>
      n ← int (Zone.id (GathererZone.zone z));
      ns ← ids zs';
      mret ((n, z) :: ns)
  end.

(** [sorted(self.zones)].  A list of fewer than two buckets is returned
    without a comparison, so without a call of [int]. *)
Definition sorted_zones (zs : list GathererZone.t) : outcome (list GathererZone.t) :=
  match zs with
  | [] | [_] => mret zs
  | _ => ns ← ids zs; mret (map snd (sorted_by_key ns))
  end.

(** What [__repr__] lays out: the buckets in the order they are printed,
    each with its entries in the order they are printed, every entry with
    the key it is printed under. *)
Fixpoint layout_zones (zs : list GathererZone.t) (h : heap)
  : outcome (list (Zone.t * list (Z * GathererEntry.t)) * heap) :=
  match zs with
  | [] => mret ([], h)
  | z :: zs' =>
      '(ks, h1) ← GathererZone.sorted_entries z h;
      '(l, h2) ← layout_zones zs' h1;
      mret ((GathererZone.zone z, ks) :: l, h2)
  end.

Definition layout (self : t) (h : heap)
  : outcome (list (Zone.t * list (Z * GathererEntry.t)) * heap) :=
  zs ← sorted_zones (zones self);
  layout_zones zs h.

Definition render_zone (zk : Zone.t * list (Z * GathererEntry.t)) : string :=
  (GathererZone.header (fst zk) ++ GathererZone.body (snd zk)
     ++ GathererZone.footer)%string.

Definition render (type : string) (l : list (Zone.t * list (Z * GathererEntry.t))) : string :=
  ("GatherMate2" ++ type ++ "DB = {" ++ newline
     ++ foldr (fun zk s => (render_zone zk ++ s)%string) "}" l)%string.

(** [__repr__]: the opening line, [str(zone)] for every zone of
    [sorted(self.zones)], the closing brace. *)
Definition repr (self : t) (h : heap) : outcome (string * heap) :=
  '(l, h') ← layout self h;
  mret (render (type self) l, h').

End Aggregate.

(** * Notions used in the statements *)

(** One axis of the key: [math.floor((v/100)*10000+0.5)]. *)
Definition axis (v : float) : outcome Z := math_floor (v / 100 * 10000 + 0.5)%float.

(** The floor of the specification: the greatest integer not above the value
    [(-1)^s * m * 2^e] of a finite float, by integer division. *)
Definition floor_spec (f : float) : outcome Z :=
  match Prim2SF f with
  | S754_zero _ => Return 0
  | S754_infinity _ => Raise OverflowError
  | S754_nan => Raise ValueError
  | S754_finite s m e =>
      let n := if s then Z.neg m else Z.pos m in
      Return (if 0 <=? e then n * 2 ^ e else n / 2 ^ (- e))
  end.

(** The contract of the specification:
    [key = floor(x/100 * 10000 + 0.5) * 1_000_000 + floor(y/100 * 10000 + 0.5) * 100]. *)
Definition encode_spec (vx vy : float) : outcome Z :=
  a ← floor_spec (vx / 100 * 10000 + 0.5)%float;
  b ← floor_spec (vy / 100 * 10000 + 0.5)%float;
  mret (a * 1000000 + b * 100).

(** The value a read of the key returns. *)
Definition key (r : ref) (h : heap) : outcome Z :=
  '(k, _) ← Coordinate.as_gatherer_coord r h; mret k.

(** [n] reads of the key in a row. *)
Fixpoint reads (n : nat) (r : ref) (h : heap) : outcome (list Z * heap) :=
  match n with
  | O => mret ([], h)
  | S n' =>
      '(k, h1) ← Coordinate.as_gatherer_coord r h;
      '(ks, h2) ← reads n' r h1;
      mret (k :: ks, h2)
  end.

(** [n] executions of the body of the [while] loop of [add]. *)
Fixpoint bumps (n : nat) (r : ref) (h : heap) : outcome heap :=
  match n with
  | O => mret h
  | S n' => h' ← Aggregate.bump r h; bumps n' r h'
  end.

(** The [Coordinate] objects the entries of a bucket, and of an aggregate,
    refer to. *)
Definition refs (es : list GathererEntry.t) : list ref :=
  map GathererEntry.coordinate es.

Definition all_refs (self : Aggregate.t) : list ref :=
  concat (map (fun gz => refs (GathererZone.entries gz)) (Aggregate.zones self)).

(** The number of entries an aggregate holds. *)
Definition total (self : Aggregate.t) : nat :=
  length (concat (map GathererZone.entries (Aggregate.zones self))).

(** Some entry of the bucket compares equal to [Coordinate(vx, vy, v)]. *)
Definition taken (h : heap) (es : list GathererEntry.t) (vx vy : float) (v : Z) : bool :=
  existsb (fun e => Coordinate.eqb (h !!! GathererEntry.coordinate e) (Coordinate.mk vx vy v)) es.

(** The shape [add] gives the entries of a bucket at one position whose key
    is [K]: the first of [n] keeps the field at 0, the others hold
    [K+1 .. K+n-1]. *)
Definition chain (h : heap) (es : list GathererEntry.t) (vx vy : float) (K : Z) (n : nat) : Prop :=
  ∀ v, taken h es vx vy v = true ↔
       (0 < n)%nat ∧ (v = 0 ∨ ∃ m : nat, (0 < m < n)%nat ∧ v = K + Z.of_nat m).

(** A [Coordinate] as the constructor left it, owned by no entry yet. *)
Definition fresh (h : heap) (self : Aggregate.t) (r : ref) : Prop :=
  Coordinate.coord (h !!! r) = 0 ∧ r ∉ all_refs self.

(** The aggregates [__init__] builds: the empty one, and [add] applied to
    entries around fresh [Coordinate] objects. *)
Inductive built : Aggregate.t → heap → Prop :=
| built_empty (ty : string) (h : heap) : built (Aggregate.mk ty []) h
| built_add (fuel : nat) (self self' : Aggregate.t) (h h' : heap)
            (zone : Zone.t) (entry : GathererEntry.t) :
    built self h →
    fresh h self (GathererEntry.coordinate entry) →
    Aggregate.add fuel self zone entry h = Return (self', h') →
    built self' h'.

(** The order of two zones by their identifiers read as integers. *)
Definition zone_le (z1 z2 : Zone.t) : Prop :=
  ∃ n1 n2, int (Zone.id z1) = Return n1 ∧ int (Zone.id z2) = Return n2 ∧ n1 ≤ n2.

(** [h'] is [h] except for the [coord] field of the object [r]. *)
Definition only_coord (r : ref) (h h' : heap) : Prop :=
  h' = h ∨ ∃ v, h' = <[r := Coordinate.set_coord v (h !!! r)]> h.

(** No bucket of [zs] is the one [add] looks for. *)
Definition no_bucket (zone : Zone.t) (zs : list GathererZone.t) : Prop :=
  Forall (fun gz => Zone.eqb (GathererZone.zone gz) zone = false) zs.

(** The [coord] fields of the objects the entries of a bucket refer to, and
    how many of them are at least [v]. *)
Definition coords (h : heap) (es : list GathererEntry.t) : list Z :=
  map (fun e => Coordinate.coord (h !!! GathererEntry.coordinate e)) es.

Definition above (cs : list Z) (v : Z) : nat := length (List.filter (Z.leb v) cs).


(** The [Coordinate] objects of the objects given to [__init__], in the order
    in which [__init__] adds them. *)
Definition object_refs (o : WowheadObject.t) : list ref :=
  concat (map snd (WowheadObject.coordinates o)).

Definition objects_refs (objects : list WowheadObject.t) : list ref :=
  concat (map object_refs objects).

(** The key of [r] is settled in [h]: a read returns [k] and writes nothing
    new. *)
Definition settled (h : heap) (r : ref) (k : Z) : Prop :=
  Coordinate.as_gatherer_coord r h = Return (k, h).

(** The entry is at the position [(vx, vy)], as [__eq__] compares floats. *)
Definition at_pos (h : heap) (vx vy : float) (e : GathererEntry.t) : bool :=
  PrimFloat.eqb (Coordinate.x (h !!! GathererEntry.coordinate e)) vx
  && PrimFloat.eqb (Coordinate.y (h !!! GathererEntry.coordinate e)) vy.

(** The [coord] fields of the entries of a bucket at a position, in the order
    of the bucket. *)
Definition fields (h : heap) (es : list GathererEntry.t) (vx vy : float) : list Z :=
  map (fun e => Coordinate.coord (h !!! GathererEntry.coordinate e))
      (List.filter (at_pos h vx vy) es).

(** The fields that [n] samples of a position with the key [K] end up with. *)
Definition chain_fields (K : Z) (n : nat) : list Z :=
  match n with
  | O => []
  | S n' => 0 :: map (fun m => K + Z.of_nat m) (seq 1 n')
  end.












(** * Concrete inputs *)

(** The store in which the [i]-th object of [cs] has reference [i]. *)
Definition heap_of (cs : list Coordinate.t) : heap :=
  list_to_map (zip (seq 0 (length cs)) cs).

(** 101 samples at the position (0.0, -0.01), whose key is -100: an object
    with the first hundred of them. *)
Definition below_zero_heap : heap :=
  heap_of (replicate 101 (Coordinate.new 0 (-0.01))).

Definition below_zero_object : WowheadObject.t :=
  WowheadObject.mk "Peacebloom" ["1618"%string] [(Zone.mk "Elwynn Forest" "37", seq 0 100)] "401".

(** The identifiers and codes of a layout, as they are printed. *)
Definition printed (l : list (Zone.t * list (Z * GathererEntry.t)))
  : list (string * list (Z * string)) :=
  map (fun zk => (Zone.id (fst zk),
                  map (fun ke => (fst ke, GathererEntry.entry_id (snd ke))) (snd zk))) l.

(** The records of the end-to-end scenario: code A and code B at
    (10.0, 10.0) in the zone with identifier 5, code C at (0.0, 0.0) in the
    zone with identifier 3. *)
Definition scenario_heap : heap :=
  heap_of [Coordinate.new 10 10; Coordinate.new 10 10; Coordinate.new 0 0].

Definition scenario_objects : list WowheadObject.t :=
  [WowheadObject.mk "a" [] [(Zone.mk "Z1" "5", [0%nat])] "A";
   WowheadObject.mk "b" [] [(Zone.mk "Z1" "5", [1%nat])] "B";
   WowheadObject.mk "c" [] [(Zone.mk "Z2" "3", [2%nat])] "C"].

Definition scenario_text : string :=
  ("GatherMate2HerbDB = {" ++ newline
   ++ tab ++ "[3] = {" ++ newline
   ++ tab ++ tab ++ "[0] = C," ++ newline
   ++ tab ++ "}," ++ newline
   ++ tab ++ "[5] = {" ++ newline
   ++ tab ++ tab ++ "[1000100000] = A," ++ newline
   ++ tab ++ tab ++ "[1000100001] = B," ++ newline
   ++ tab ++ "}," ++ newline
   ++ "}")%string.

(** Two samples of one zone at different positions, (10.0, 10.0) and
    (10.001, 10.0), that round to the same grid point. *)
Definition near_heap : heap :=
  heap_of [Coordinate.new 10 10; Coordinate.new 10.001 10].

Definition near_objects : list WowheadObject.t :=
  [WowheadObject.mk "a" [] [(Zone.mk "Z1" "5", [0%nat])] "A";
   WowheadObject.mk "b" [] [(Zone.mk "Z1" "5", [1%nat])] "B"].

(** Two zones that differ in name only. *)
Definition twin_heap : heap :=
  heap_of [Coordinate.new 10 10; Coordinate.new 20 20].

Definition twin_objects : list WowheadObject.t :=
  [WowheadObject.mk "a" [] [(Zone.mk "Z1" "5", [0%nat])] "A";
   WowheadObject.mk "b" [] [(Zone.mk "Z2" "5", [1%nat])] "B"].


Definition crowded_object : WowheadObject.t :=
  WowheadObject.mk "Peacebloom" ["1618"%string] [(Zone.mk "Elwynn Forest" "37", seq 0 101)] "401".

(** The bucket and the store that a hundred samples at (0.0, -0.01) leave,
    and the next sample at the position. *)
Definition below_zero_bucket : GathererZone.t :=
  GathererZone.mk (Zone.mk "Elwynn Forest" "37")
                  (map (fun r => GathererEntry.mk r "401") (seq 0 100)).

Definition below_zero_store : heap :=
  heap_of (Coordinate.new 0 (-0.01)
           :: map (fun m => Coordinate.mk 0 (-0.01) (-100 + Z.of_nat m)) (seq 1 99)
           ++ [Coordinate.new 0 (-0.01)]).

(** * Properties *)

(** Evaluates the call a [match] of the goal looks at. *)
Ltac run_scrutinee :=
  match goal with
  | |- context [match ?m with Return _ => _ | Raise _ => _ | Diverge => _ end] =>
      let v := eval vm_compute in m in
      replace m with v by (vm_compute; reflexivity);
      cbv beta iota
  end.

Lemma outcome_bind_Return {A B : Type} (a : A) (f : A → outcome B) :
  (Return a ≫= f) = f a.
Proof. reflexivity. Qed.

(** ** Floats: equality and [math.floor] *)

Lemma SFeqb_true_cases (a b : spec_float) :
  SFeqb a b = true →
  a = b ∨ ((∃ s, a = S754_zero s) ∧ (∃ s, b = S754_zero s)).
Proof.
  unfold SFeqb.
  destruct a as [sa|sa| |sa ma ea], b as [sb|sb| |sb mb eb]; simpl;
    try discriminate; try (destruct sa; discriminate); try (destruct sb; discriminate).
  - intros _. right. eauto.
  - destruct sa, sb; try discriminate; auto.
  - destruct sa, sb; try discriminate;
      destruct (Z.compare ea eb) eqn:He; try discriminate;
      apply Z.compare_eq in He; subst eb;
      destruct (Pos.compare_cont Eq ma mb) eqn:Hm; try discriminate;
      apply Pos.compare_eq in Hm; subst mb; auto.
Qed.

Lemma float_eqb_cases (a b : float) :
  PrimFloat.eqb a b = true →
  a = b ∨ ((∃ s, Prim2SF a = S754_zero s) ∧ (∃ s, Prim2SF b = S754_zero s)).
Proof.
  rewrite FloatAxioms.eqb_spec. intros H.
  destruct (SFeqb_true_cases _ _ H) as [E|E]; [left; by apply Prim2SF_inj | by right].
Qed.


Lemma float_zero_cases (a : float) (s : bool) :
  Prim2SF a = S754_zero s → a = 0%float ∨ a = (-0)%float.
Proof.
  intros H. rewrite <- (SF2Prim_Prim2SF a), H. destruct s; auto.
Qed.


Lemma encode_axis (vx vy : float) :
  Coordinate.encode vx vy = (fx ← axis vx; fy ← axis vy; mret (fx * 1000000 + fy * 100)).
Proof. reflexivity. Qed.

Lemma axis_eqb (a b : float) :
  PrimFloat.eqb a b = true → axis a = axis b.
Proof.
  intros H. destruct (float_eqb_cases _ _ H) as [->|[[sa Ha] [sb Hb]]]; [done|].
  destruct (float_zero_cases _ _ Ha) as [->| ->], (float_zero_cases _ _ Hb) as [->| ->];
    reflexivity.
Qed.

Lemma axis_nan (a : float) : Prim2SF a = S754_nan → axis a = Raise ValueError.
Proof.
  intros H. unfold axis, math_floor.
  by rewrite add_spec, mul_spec, div_spec, H.
Qed.

Lemma encode_eqb (x1 y1 x2 y2 : float) :
  PrimFloat.eqb x1 x2 = true → PrimFloat.eqb y1 y2 = true →
  Coordinate.encode x1 y1 = Coordinate.encode x2 y2.
Proof.
  intros Hx Hy. by rewrite !encode_axis, (axis_eqb _ _ Hx), (axis_eqb _ _ Hy).
Qed.


(** The key is a multiple of 100: the two low decimal digits are free. *)
Lemma encode_multiple (vx vy : float) (k : Z) :
  Coordinate.encode vx vy = Return k → (100 | k).
Proof.
  rewrite encode_axis. destruct (axis vx) as [fx| |]; try done.
  destruct (axis vy) as [fy| |]; try done.
  intros [= <-]. exists (fx * 10000 + fy). lia.
Qed.

Lemma math_floor_spec (f : float) : math_floor f = floor_spec f.
Proof.
  unfold math_floor, floor_spec. destruct (Prim2SF f) as [s|s| |s m e]; try done.
  f_equal. destruct (Z.leb_spec 0 e).
  - by apply Z.shiftl_mul_pow2.
  - rewrite <- (Z.opp_involutive e) at 1. rewrite Z.shiftl_opp_r.
    apply Z.shiftr_div_pow2. lia.
Qed.

Lemma encode_encode_spec (vx vy : float) :
  Coordinate.encode vx vy = encode_spec vx vy.
Proof. unfold Coordinate.encode, encode_spec. by rewrite !math_floor_spec. Qed.

(** The floor is the greatest integer not above the value. *)
Lemma floor_spec_bounds (f : float) (s : bool) (m : positive) (e n : Z) :
  Prim2SF f = S754_finite s m e → floor_spec f = Return n →
  let v := if s then Z.neg m else Z.pos m in
  if 0 <=? e then n = v * 2 ^ e
  else n * 2 ^ (- e) ≤ v < (n + 1) * 2 ^ (- e).
Proof.
  unfold floor_spec. intros -> [= <-]. simpl.
  destruct (Z.leb_spec 0 e); [done|].
  set (v := if s then Z.neg m else Z.pos m).
  assert (0 < 2 ^ (- e)) by (apply Z.pow_pos_nonneg; lia).
  pose proof (Z.div_mod v (2 ^ (- e))) as E.
  pose proof (Z.mod_pos_bound v (2 ^ (- e))). nia.
Qed.

(** ** Reading the key *)

Lemma as_gatherer_coord_unset (r : ref) (h : heap) :
  Coordinate.coord (h !!! r) = 0 →
  Coordinate.as_gatherer_coord r h =
    (k ← Coordinate.encode (Coordinate.x (h !!! r)) (Coordinate.y (h !!! r));
     mret (k, <[r := Coordinate.set_coord k (h !!! r)]> h)).
Proof. intros H. unfold Coordinate.as_gatherer_coord. by rewrite H. Qed.

Lemma as_gatherer_coord_set (r : ref) (h : heap) :
  Coordinate.coord (h !!! r) ≠ 0 →
  Coordinate.as_gatherer_coord r h = Return (Coordinate.coord (h !!! r), h).
Proof.
  intros H. unfold Coordinate.as_gatherer_coord.
  by destruct (Z.eqb_spec (Coordinate.coord (h !!! r)) 0).
Qed.

(** What a read leaves behind: the field holds the key returned, the
    position is untouched, and so is every other object. *)
Lemma as_gatherer_coord_Return (r : ref) (h h1 : heap) (k : Z) :
  Coordinate.as_gatherer_coord r h = Return (k, h1) →
  h1 = <[r := Coordinate.set_coord k (h !!! r)]> h
  ∧ (Coordinate.coord (h !!! r) = k
     ∨ Coordinate.coord (h !!! r) = 0
       ∧ Coordinate.encode (Coordinate.x (h !!! r)) (Coordinate.y (h !!! r)) = Return k).
Proof.
  unfold Coordinate.as_gatherer_coord.
  destruct (Z.eqb_spec (Coordinate.coord (h !!! r)) 0) as [E|E].
  - destruct (Coordinate.encode _ _) as [k'| |] eqn:Hk; try done.
    intros [= <- <-]. auto.
  - intros [= <- <-]. split; [|by left].
    symmetry. apply insert_id. revert E.
    unfold lookup_total, map_lookup_total.
    destruct (h !! r) as [[cx cy cc]|]; simpl; [done|congruence].
Qed.

(** A second read returns what the first one returned and changes nothing. *)
Lemma as_gatherer_coord_again (r : ref) (h h1 : heap) (k : Z) :
  Coordinate.as_gatherer_coord r h = Return (k, h1) →
  Coordinate.as_gatherer_coord r h1 = Return (k, h1).
Proof.
  intros H. destruct (as_gatherer_coord_Return _ _ _ _ H) as [-> Hk].
  destruct (Z.eq_dec k 0) as [->|Hk0].
  - rewrite as_gatherer_coord_unset by (by rewrite lookup_total_insert_eq).
    rewrite lookup_total_insert_eq. simpl.
    assert (Coordinate.encode (Coordinate.x (h !!! r)) (Coordinate.y (h !!! r)) = Return 0) as ->.
    { destruct Hk as [Hk|[_ Hk]]; [|done].
      rewrite as_gatherer_coord_unset in H by done.
      destruct (Coordinate.encode _ _) as [k'| |]; try done.
      by injection H as ->. }
    simpl. by rewrite insert_insert_eq.
  - rewrite as_gatherer_coord_set by (by rewrite lookup_total_insert_eq).
    by rewrite lookup_total_insert_eq.
Qed.

Lemma as_gatherer_coord_Raise (r : ref) (h : heap) (e : exn) :
  Coordinate.as_gatherer_coord r h = Raise e →
  Coordinate.coord (h !!! r) = 0
  ∧ Coordinate.encode (Coordinate.x (h !!! r)) (Coordinate.y (h !!! r)) = Raise e.
Proof.
  unfold Coordinate.as_gatherer_coord.
  destruct (Z.eqb_spec (Coordinate.coord (h !!! r)) 0) as [E|E]; [|done].
  destruct (Coordinate.encode _ _); simpl; intros [=]; by subst.
Qed.

Lemma as_gatherer_coord_not_Diverge (r : ref) (h : heap) :
  Coordinate.as_gatherer_coord r h ≠ Diverge.
Proof.
  unfold Coordinate.as_gatherer_coord, Coordinate.encode, math_floor.
  destruct (_ =? _); [|done].
  destruct (Prim2SF _) as [?|?| |? ? ?]; try done;
    by destruct (Prim2SF _) as [?|?| |? ? ?].
Qed.

Lemma reads_after_read (n : nat) (r : ref) (h h1 : heap) (k : Z) :
  Coordinate.as_gatherer_coord r h = Return (k, h1) →
  reads n r h1 = Return (replicate n k, h1).
Proof.
  intros H. induction n as [|n IH]; [done|].
  simpl. rewrite (as_gatherer_coord_again _ _ _ _ H). simpl. by rewrite IH.
Qed.

(** C1: for every pair of floats the key computed for a new [Coordinate] is
    [floor(x/100*10000+0.5)*1000000 + floor(y/100*10000+0.5)*100], the floor
    being the one of the specification, and the key is stored in the object;
    [encode(50.0, 50.0) = 5000500000]; a tie such as 12.5 goes up to 13. *)
Theorem C1_encode_formula (vx vy : float) (r : ref) (h : heap) :
  Coordinate.as_gatherer_coord r (<[r := Coordinate.new vx vy]> h)
    = (k ← encode_spec vx vy; mret (k, <[r := Coordinate.mk vx vy k]> h))
  ∧ encode_spec 50 50 = Return 5000500000
  ∧ encode_spec 0.125 0.125 = Return 13001300.
Proof.
  split; [|by vm_compute].
  rewrite as_gatherer_coord_unset by (by rewrite lookup_total_insert_eq).
  rewrite lookup_total_insert_eq. simpl. rewrite encode_encode_spec.
  destruct (encode_spec vx vy) as [k| |]; try done.
  by rewrite !outcome_bind_Return, insert_insert_eq.
Qed.

(** C8: a second read of the key returns what the first one returned, for
    every [Coordinate]; two new [Coordinate] objects with the same [(x, y)]
    have the same key; at [x = y = 0], where the key is the value that marks
    an unset field, two reads return 0 and 0. *)
Theorem C8_key_reads_agree (r r1 r2 : ref) (h h1 h2 : heap) (vx vy : float) :
  reads 2 r h = ('(k, h') ← Coordinate.as_gatherer_coord r h; mret ([k; k], h'))
  ∧ key r1 (<[r1 := Coordinate.new vx vy]> h1) = key r2 (<[r2 := Coordinate.new vx vy]> h2)
  ∧ reads 2 r (<[r := Coordinate.new 0 0]> h)
      = Return ([0; 0], <[r := Coordinate.new 0 0]> h).
Proof.
  assert (∀ r h, reads 2 r h
            = ('(k, h') ← Coordinate.as_gatherer_coord r h; mret ([k; k], h'))) as Htwice.
  { clear. intros r h. simpl.
    destruct (Coordinate.as_gatherer_coord r h) as [[k h']| |] eqn:H; try done.
    simpl. by rewrite (as_gatherer_coord_again _ _ _ _ H). }
  split; [apply Htwice|]. split.
  - unfold key.
    rewrite !as_gatherer_coord_unset by (by rewrite lookup_total_insert_eq).
    rewrite !lookup_total_insert_eq. simpl.
    by destruct (Coordinate.encode vx vy).
  - rewrite Htwice.
    rewrite as_gatherer_coord_unset by (by rewrite lookup_total_insert_eq).
    rewrite lookup_total_insert_eq. unfold Coordinate.new at 1 2.
    simpl (Coordinate.x _). simpl (Coordinate.y _).
    assert (Coordinate.encode 0 0 = Return 0) as -> by (by vm_compute).
    by rewrite !outcome_bind_Return, insert_insert_eq.
Qed.

(** ** Overriding the key *)

Lemma bump_Return (r : ref) (h h1 : heap) (k : Z) :
  Coordinate.as_gatherer_coord r h = Return (k, h1) →
  Aggregate.bump r h = Return (<[r := Coordinate.set_coord (k + 1) (h !!! r)]> h).
Proof.
  intros H. unfold Aggregate.bump. rewrite H. simpl.
  destruct (as_gatherer_coord_Return _ _ _ _ H) as [-> _].
  by rewrite lookup_total_insert_eq, insert_insert_eq.
Qed.

(** C7, as the code has it: an override by collision resolution with a value
    other than 0 is kept; every later read returns it and leaves the object
    as it is.  The key read before the override is [k], the override assigns
    [k + 1]. *)
Theorem C7_override_is_kept (r : ref) (h h1 : heap) (k : Z) (n : nat) :
  Coordinate.as_gatherer_coord r h = Return (k, h1) →
  k + 1 ≠ 0 →
  ∃ h', Aggregate.bump r h = Return h'
        ∧ Coordinate.coord (h' !!! r) = k + 1
        ∧ reads n r h' = Return (replicate n (k + 1), h').
Proof.
  intros H Hk. eexists. split; [by eapply bump_Return|].
  rewrite lookup_total_insert_eq. split; [done|].
  apply reads_after_read with (h := <[r := Coordinate.set_coord (k + 1) (h !!! r)]> h).
  rewrite as_gatherer_coord_set by (by rewrite lookup_total_insert_eq).
  by rewrite lookup_total_insert_eq.
Qed.

Lemma C7_override_is_kept_witness :
  ∃ h', Aggregate.bump 0%nat (heap_of [Coordinate.new 10 10]) = Return h'
        ∧ Coordinate.coord (h' !!! 0%nat) = 1000100000 + 1
        ∧ reads 3 0%nat h' = Return (replicate 3 (1000100000 + 1), h').
Proof.
  apply (C7_override_is_kept 0%nat (heap_of [Coordinate.new 10 10])
           (heap_of [Coordinate.mk 10 10 1000100000]) 1000100000 3).
  - by vm_compute.
  - lia.
Defined.

(** C7 fails when the override assigns 0.  A hundred samples at (0.0, -0.01),
    key -100, are in a bucket; for the next one the loop of [add] overrides
    the key a hundred times, from -99 up, and is still running; the hundredth
    override assigns [-1 + 1 = 0], and the next read returns -100, computed
    from [(x, y)] again. *)
Lemma C7_override_with_zero_is_recomputed :
  match Aggregate.init 100 "Herb" [below_zero_object] below_zero_heap with
  | Return (a, h) =>
      match Aggregate.zones a, bumps 99 100%nat h with
      | [gz], Return h99 =>
          Aggregate.probe 100 100%nat (GathererZone.entries gz) h = Diverge
          ∧ key 100%nat h99 = Return (-1)
          ∧ match Aggregate.bump 100%nat h99 with
            | Return h100 =>
                Coordinate.coord (h100 !!! 100%nat) = 0
                ∧ key 100%nat h100 = Return (-100)
            | _ => False
            end
      | _, _ => False
      end
  | _ => False
  end.
Proof. vm_compute. repeat split. Qed.

(** ** [sorted] *)

Section SortedByKey.
Context {A : Type}.
Implicit Types (a : Z * A) (l : list (Z * A)).

Let le_key (a b : Z * A) : Prop := fst a ≤ fst b.
Let lt_key (a b : Z * A) : bool := fst a <? fst b.

Lemma insert_sorted_Permutation a l :
  Permutation (a :: l) (insert_sorted lt_key a l).
Proof.
  induction l as [|b l IH]; simpl; [done|].
  destruct (lt_key b a); [|done].
  rewrite perm_swap. by constructor.
Qed.

Lemma insert_sorted_StronglySorted a l :
  StronglySorted le_key l → StronglySorted le_key (insert_sorted lt_key a l).
Proof.
  induction 1 as [|b l Hl IH Hb]; simpl.
  - repeat constructor.
  - unfold lt_key at 1. destruct (Z.ltb_spec (fst b) (fst a)) as [Hlt|Hge].
    + constructor; [done|].
      rewrite <- insert_sorted_Permutation. constructor; [unfold le_key; lia|done].
    + constructor; [by constructor|].
      constructor; [done|].
      eapply Forall_impl; [exact Hb|]. unfold le_key. intros; simpl in *. lia.
Qed.

Lemma sorted_by_key_Permutation l : Permutation l (sorted_by_key l).
Proof.
  unfold sorted_by_key, sorted. induction l as [|a l IH]; simpl; [done|].
  etrans; [|apply insert_sorted_Permutation]. by constructor.
Qed.

Lemma sorted_by_key_StronglySorted l : StronglySorted le_key (sorted_by_key l).
Proof.
  unfold sorted_by_key, sorted. induction l as [|a l IH]; simpl; [constructor|].
  by apply insert_sorted_StronglySorted.
Qed.

Lemma sorted_by_key_keys l : StronglySorted Z.le (map fst (sorted_by_key l)).
Proof.
  generalize (sorted_by_key_StronglySorted l).
  induction 1 as [|a l' Hl IH Ha]; simpl; constructor; [done|].
  by apply Forall_map.
Qed.

End SortedByKey.

(** ** The emitter *)

Lemma ids_Return (zs : list GathererZone.t) (ns : list (Z * GathererZone.t)) :
  Aggregate.ids zs = Return ns →
  map snd ns = zs
  ∧ Forall (fun p => int (Zone.id (GathererZone.zone (snd p))) = Return (fst p)) ns.
Proof.
  revert ns. induction zs as [|z zs IH]; simpl; intros ns.
  - by intros [= <-].
  - destruct (int _) as [n| |] eqn:Hn; try done.
    destruct (Aggregate.ids zs) as [ns'| |]; try done.
    intros [= <-]. destruct (IH _ eq_refl) as [E F].
    simpl. split; [by rewrite E|by constructor].
Qed.

Lemma StronglySorted_map_zone (ns : list (Z * GathererZone.t)) :
  Forall (fun p => int (Zone.id (GathererZone.zone (snd p))) = Return (fst p)) ns →
  StronglySorted (fun a b : Z * GathererZone.t => fst a ≤ fst b) ns →
  StronglySorted zone_le (map GathererZone.zone (map snd ns)).
Proof.
  intros F. induction 1 as [|a l Hl IH Ha]; simpl; [constructor|].
  inversion_clear F as [|? ? Fa Fl]. constructor; [by apply IH|].
  rewrite !Forall_map. rewrite Forall_forall in Ha, Fl |- *.
  intros b Hb. exists (fst a), (fst b). split; [done|]. split; [by apply Fl|by apply Ha].
Qed.

Lemma sorted_zones_Return (zs zs' : list GathererZone.t) :
  Aggregate.sorted_zones zs = Return zs' →
  Permutation zs zs' ∧ StronglySorted zone_le (map GathererZone.zone zs').
Proof.
  unfold Aggregate.sorted_zones.
  destruct zs as [|z1 [|z2 zs]].
  - intros [= <-]. split; [done|constructor].
  - intros [= <-]. split; [done|]. repeat constructor.
  - destruct (Aggregate.ids _) as [ns| |] eqn:Hns; try done.
    intros [= <-]. destruct (ids_Return _ _ Hns) as [E F]. split.
    + rewrite <- E at 1. apply Permutation_map, sorted_by_key_Permutation.
    + apply StronglySorted_map_zone.
      * by rewrite <- sorted_by_key_Permutation.
      * apply sorted_by_key_StronglySorted.
Qed.

Lemma keys_Return (es : list GathererEntry.t) (h h' : heap) (ks : list (Z * GathererEntry.t)) :
  GathererZone.keys es h = Return (ks, h') → map snd ks = es.
Proof.
  revert h ks. induction es as [|e es IH]; simpl; intros h ks.
  - by intros [= <- _].
  - destruct (Coordinate.as_gatherer_coord _ _) as [[k h1]| |]; try done.
    rewrite outcome_bind_Return.
    destruct (GathererZone.keys es h1) as [[ks' h2]| |] eqn:Hks; try done.
    intros [= <- <-]. simpl. by rewrite (IH _ _ Hks).
Qed.

Lemma sorted_entries_Return (z : GathererZone.t) (h h' : heap) (ks : list (Z * GathererEntry.t)) :
  GathererZone.sorted_entries z h = Return (ks, h') →
  Permutation (GathererZone.entries z) (map snd ks)
  ∧ StronglySorted Z.le (map fst ks).
Proof.
  unfold GathererZone.sorted_entries.
  destruct (GathererZone.keys _ _) as [[ks' h1]| |] eqn:Hks; try done.
  intros [= <- _]. split; [|apply sorted_by_key_keys].
  rewrite <- (keys_Return _ _ _ _ Hks).
  apply Permutation_map, sorted_by_key_Permutation.
Qed.

Lemma layout_zones_Return (zs : list GathererZone.t) (h h' : heap)
      (l : list (Zone.t * list (Z * GathererEntry.t))) :
  Aggregate.layout_zones zs h = Return (l, h') →
  map fst l = map GathererZone.zone zs
  ∧ Forall (fun zk => StronglySorted Z.le (map fst (snd zk))) l
  ∧ Forall2 (fun z zk => Permutation (GathererZone.entries z) (map snd (snd zk))) zs l.
Proof.
  revert h l. induction zs as [|z zs IH]; simpl; intros h l.
  - intros [= <- _]. by repeat constructor.
  - destruct (GathererZone.sorted_entries z h) as [[ks h1]| |] eqn:Hks; try done.
    rewrite outcome_bind_Return.
    destruct (Aggregate.layout_zones zs h1) as [[l' h2]| |] eqn:Hl; try done.
    intros [= <- <-]. destruct (IH _ _ Hl) as (E & F & P).
    destruct (sorted_entries_Return _ _ _ _ Hks) as [Pk Sk].
    simpl. split; [by rewrite E|]. split; by constructor.
Qed.

(** C5, as the code has it: the text is the rendering of a layout in which
    the buckets follow each other in non-decreasing order of their
    identifiers read as integers (so "100" after "99"), every bucket of the
    aggregate appearing once, and in which the entries of each bucket follow
    each other in non-decreasing order of their keys. *)
Theorem C5_emitted_order (self : Aggregate.t) (h h' : heap) (s : string) :
  Aggregate.repr self h = Return (s, h') →
  ∃ l, Aggregate.layout self h = Return (l, h')
       ∧ s = Aggregate.render (Aggregate.type self) l
       ∧ Permutation (map GathererZone.zone (Aggregate.zones self)) (map fst l)
       ∧ StronglySorted zone_le (map fst l)
       ∧ Forall (fun zk => StronglySorted Z.le (map fst (snd zk))) l
       ∧ zone_le (Zone.mk "Z99" "99") (Zone.mk "Z100" "100")
       ∧ ¬ zone_le (Zone.mk "Z100" "100") (Zone.mk "Z99" "99").
Proof.
  unfold Aggregate.repr.
  destruct (Aggregate.layout self h) as [[l h1]| |] eqn:Hl; try done.
  intros [= <- <-]. exists l. do 2 (split; [done|]).
  revert Hl. unfold Aggregate.layout.
  destruct (Aggregate.sorted_zones _) as [zs| |] eqn:Hzs; try done.
  rewrite outcome_bind_Return. intros Hl.
  destruct (sorted_zones_Return _ _ Hzs) as [P S].
  destruct (layout_zones_Return _ _ _ _ Hl) as (E & F & _).
  rewrite E. split; [by apply Permutation_map|]. do 2 (split; [done|]). split.
  - exists 99, 100. by vm_compute.
  - intros (n1 & n2 & H1 & H2 & Hle). vm_compute in H1, H2. simplify_eq. lia.
Qed.

Lemma C5_emitted_order_witness :
  ∃ l, Aggregate.layout
         (Aggregate.mk "Herb"
            [GathererZone.mk (Zone.mk "Z1" "5") [GathererEntry.mk 0%nat "A"; GathererEntry.mk 1%nat "B"];
             GathererZone.mk (Zone.mk "Z2" "3") [GathererEntry.mk 2%nat "C"]])
         (heap_of [Coordinate.new 10 10; Coordinate.mk 10 10 1000100001; Coordinate.new 0 0])
       = Return (l, heap_of [Coordinate.mk 10 10 1000100000; Coordinate.mk 10 10 1000100001;
                             Coordinate.new 0 0])
       ∧ scenario_text = Aggregate.render "Herb" l
       ∧ Permutation [Zone.mk "Z1" "5"; Zone.mk "Z2" "3"] (map fst l)
       ∧ StronglySorted zone_le (map fst l)
       ∧ Forall (fun zk => StronglySorted Z.le (map fst (snd zk))) l
       ∧ zone_le (Zone.mk "Z99" "99") (Zone.mk "Z100" "100")
       ∧ ¬ zone_le (Zone.mk "Z100" "100") (Zone.mk "Z99" "99").
Proof.
  apply (C5_emitted_order
           (Aggregate.mk "Herb"
              [GathererZone.mk (Zone.mk "Z1" "5") [GathererEntry.mk 0%nat "A"; GathererEntry.mk 1%nat "B"];
               GathererZone.mk (Zone.mk "Z2" "3") [GathererEntry.mk 2%nat "C"]])).
  vm_compute. reflexivity.
Defined.

(** C5 as stated asks for strictly increasing orders.  Two entries at
    (10.0, 10.0) and (10.001, 10.0) are printed under the same key, and two
    zones named differently with the identifier 5 are printed one after the
    other. *)
Lemma C5_order_is_not_strict :
  match Aggregate.init 3 "Herb" near_objects near_heap,
        Aggregate.init 3 "Herb" twin_objects twin_heap with
  | Return (a1, h1), Return (a2, h2) =>
      match Aggregate.layout a1 h1, Aggregate.layout a2 h2 with
      | Return (l1, _), Return (l2, _) =>
          printed l1 = [("5"%string, [(1000100000, "A"%string); (1000100000, "B"%string)])]
          ∧ ¬ Forall (fun zk => StronglySorted Z.lt (map fst (snd zk))) l1
          ∧ printed l2 = [("5"%string, [(1000100000, "A"%string)]);
                          ("5"%string, [(2000200000, "B"%string)])]
          ∧ ¬ StronglySorted
                (fun z1 z2 => ∃ n1 n2, int (Zone.id z1) = Return n1
                                       ∧ int (Zone.id z2) = Return n2 ∧ n1 < n2)
                (map fst l2)
      | _, _ => False
      end
  | _, _ => False
  end.
Proof.
  run_scrutinee. run_scrutinee. run_scrutinee. run_scrutinee.
  split; [done|]. split; [|split; [done|]].
  - intros H. inversion_clear H as [|? ? H1 _]. simpl in H1.
    inversion_clear H1 as [|? ? _ H2]. inversion_clear H2 as [|? ? H3 _]. lia.
  - intros H. simpl in H. inversion_clear H as [|? ? _ H2].
    inversion_clear H2 as [|? ? H3 _].
    destruct H3 as (n1 & n2 & E1 & E2 & Hlt). vm_compute in E1, E2. simplify_eq. lia.
Qed.

(** C4, as the code has it: the scenario prints the zone with identifier 3
    before the zone with identifier 5, and in the latter code A under the key
    1000100000 = 1000 * 1000000 + 1000 * 100 before code B under
    1000100001. *)
Theorem C4_scenario_text :
  ∃ a h l h',
    Aggregate.init 3 "Herb" scenario_objects scenario_heap = Return (a, h)
    ∧ Aggregate.layout a h = Return (l, h')
    ∧ printed l = [("3"%string, [(0, "C"%string)]);
                   ("5"%string, [(1000100000, "A"%string); (1000100001, "B"%string)])]
    ∧ Aggregate.repr a h = Return (scenario_text, h').
Proof.
  do 4 eexists. split; [vm_compute; reflexivity|].
  split; [vm_compute; reflexivity|]. split; by vm_compute.
Qed.

(** C4 as stated puts A under 1000100010 and B under 1000100011. *)
Lemma C4_keys_are_not_those_claimed :
  match Aggregate.init 3 "Herb" scenario_objects scenario_heap with
  | Return (a, h) =>
      match Aggregate.layout a h with
      | Return (l, _) =>
          printed l ≠ [("3"%string, [(0, "C"%string)]);
                       ("5"%string, [(1000100010, "A"%string); (1000100011, "B"%string)])]
      | _ => False
      end
  | _ => False
  end.
Proof. vm_compute. intros [=]. Qed.

(** C2 at its failing input: two entries of one bucket, at (10.0, 10.0) and
    (10.001, 10.0), are stored without a collision being seen and are printed
    under the same key. *)
Theorem C2_two_entries_one_key :
  ∃ a h l h',
    Aggregate.init 3 "Herb" near_objects near_heap = Return (a, h)
    ∧ Aggregate.layout a h = Return (l, h')
    ∧ printed l = [("5"%string, [(1000100000, "A"%string); (1000100000, "B"%string)])].
Proof.
  do 4 eexists. split; [vm_compute; reflexivity|].
  split; [vm_compute; reflexivity|]. by vm_compute.
Qed.

(** ** The effect of [add] on the store *)

Lemma set_coord_set_coord (v w : Z) (c : Coordinate.t) :
  Coordinate.set_coord v (Coordinate.set_coord w c) = Coordinate.set_coord v c.
Proof. reflexivity. Qed.

Lemma only_coord_refl (r : ref) (h : heap) : only_coord r h h.
Proof. by left. Qed.

Lemma only_coord_insert (r : ref) (h : heap) (v : Z) :
  only_coord r h (<[r := Coordinate.set_coord v (h !!! r)]> h).
Proof. right. by exists v. Qed.

Lemma only_coord_trans (r : ref) (h1 h2 h3 : heap) :
  only_coord r h1 h2 → only_coord r h2 h3 → only_coord r h1 h3.
Proof.
  intros [->|[v ->]] [->|[w ->]]; [by left|right; by exists w|right; by exists v|].
  right. exists w. by rewrite lookup_total_insert_eq, set_coord_set_coord, insert_insert_eq.
Qed.

Lemma only_coord_lookup_ne (r r' : ref) (h h' : heap) :
  only_coord r h h' → r' ≠ r → h' !! r' = h !! r'.
Proof. intros [->|[v ->]] Hne; [done|]. by rewrite lookup_insert_ne. Qed.

Lemma only_coord_lookup_total_ne (r r' : ref) (h h' : heap) :
  only_coord r h h' → r' ≠ r → h' !!! r' = h !!! r'.
Proof. intros [->|[v ->]] Hne; [done|]. by rewrite lookup_total_insert_ne. Qed.

Lemma only_coord_position (r r' : ref) (h h' : heap) :
  only_coord r h h' →
  Coordinate.x (h' !!! r') = Coordinate.x (h !!! r')
  ∧ Coordinate.y (h' !!! r') = Coordinate.y (h !!! r').
Proof.
  intros [->|[v ->]]; [done|]. destruct (decide (r' = r)) as [->|Hne].
  - by rewrite lookup_total_insert_eq.
  - by rewrite lookup_total_insert_ne.
Qed.

Lemma as_gatherer_coord_only_coord (r : ref) (h h1 : heap) (k : Z) :
  Coordinate.as_gatherer_coord r h = Return (k, h1) → only_coord r h h1.
Proof. intros H. destruct (as_gatherer_coord_Return _ _ _ _ H) as [-> _]. apply only_coord_insert. Qed.

Lemma bump_inv (r : ref) (h h' : heap) :
  Aggregate.bump r h = Return h' →
  ∃ k h1, Coordinate.as_gatherer_coord r h = Return (k, h1)
          ∧ h' = <[r := Coordinate.set_coord (k + 1) (h !!! r)]> h.
Proof.
  intros H. destruct (Coordinate.as_gatherer_coord r h) as [[k h1]| |] eqn:Hr;
    try (unfold Aggregate.bump in H; by rewrite Hr in H).
  exists k, h1. split; [done|]. rewrite (bump_Return _ _ _ _ Hr) in H. by injection H.
Qed.

Lemma probe_only_coord (fuel : nat) (r : ref) (es : list GathererEntry.t) (h h' : heap) :
  Aggregate.probe fuel r es h = Return h' → only_coord r h h'.
Proof.
  revert h. induction fuel as [|fuel IH]; simpl; intros h;
    destruct (Aggregate.contains h r es); try done; try (intros [= <-]; apply only_coord_refl).
  destruct (Aggregate.bump r h) as [h1| |] eqn:Hb; try done.
  rewrite outcome_bind_Return. intros H.
  destruct (bump_inv _ _ _ Hb) as (k & ? & _ & ->).
  eapply only_coord_trans; [apply only_coord_insert|by apply IH].
Qed.

(** ** The effect of [add] on the buckets *)

Lemma zones_split (zone : Zone.t) (zs : list GathererZone.t) :
  no_bucket zone zs
  ∨ ∃ l1 gz l2, zs = l1 ++ gz :: l2 ∧ no_bucket zone l1
                ∧ Zone.eqb (GathererZone.zone gz) zone = true.
Proof.
  induction zs as [|gz zs IH]; [left; constructor|].
  destruct (Zone.eqb (GathererZone.zone gz) zone) eqn:E.
  - right. exists [], gz, zs. repeat split; [constructor|done].
  - destruct IH as [IH|(l1 & gz' & l2 & -> & F & E')].
    + left. by constructor.
    + right. exists (gz :: l1), gz', l2. repeat split; [by constructor|done].
Qed.

Lemma add_zones_new (fuel : nat) (zone : Zone.t) (entry : GathererEntry.t)
      (zs : list GathererZone.t) (h : heap) :
  no_bucket zone zs →
  Aggregate.add_zones fuel zone entry zs h = Return (zs ++ [GathererZone.mk zone [entry]], h).
Proof.
  induction 1 as [|gz zs E _ IH]; simpl; [done|]. by rewrite E, IH.
Qed.

Lemma add_zones_found (fuel : nat) (zone : Zone.t) (entry : GathererEntry.t)
      (l1 l2 : list GathererZone.t) (gz : GathererZone.t) (h : heap) :
  no_bucket zone l1 → Zone.eqb (GathererZone.zone gz) zone = true →
  Aggregate.add_zones fuel zone entry (l1 ++ gz :: l2) h
  = (h' ← Aggregate.probe fuel (GathererEntry.coordinate entry) (GathererZone.entries gz) h;
     mret (l1 ++ GathererZone.mk (GathererZone.zone gz) (GathererZone.entries gz ++ [entry]) :: l2,
           h')).
Proof.
  intros F E. induction F as [|gz' l1 E' _ IH]; simpl.
  - by rewrite E.
  - rewrite E', IH. by destruct (Aggregate.probe _ _ _ _).
Qed.

(** What [add] returns: either the first bucket of the zone has the entry at
    its end and the others are as they were, or no bucket was of the zone and
    a bucket with the entry alone comes last. *)
Lemma add_zones_Return (fuel : nat) (zone : Zone.t) (entry : GathererEntry.t)
      (zs zs' : list GathererZone.t) (h h' : heap) :
  Aggregate.add_zones fuel zone entry zs h = Return (zs', h') →
  (no_bucket zone zs ∧ zs' = zs ++ [GathererZone.mk zone [entry]] ∧ h' = h)
  ∨ (∃ l1 gz l2,
        zs = l1 ++ gz :: l2 ∧ no_bucket zone l1
        ∧ Zone.eqb (GathererZone.zone gz) zone = true
        ∧ Aggregate.probe fuel (GathererEntry.coordinate entry) (GathererZone.entries gz) h
          = Return h'
        ∧ zs' = l1 ++ GathererZone.mk (GathererZone.zone gz)
                        (GathererZone.entries gz ++ [entry]) :: l2).
Proof.
  destruct (zones_split zone zs) as [F|(l1 & gz & l2 & -> & F & E)].
  - rewrite add_zones_new by done. intros [= <- <-]. by left.
  - rewrite add_zones_found by done.
    destruct (Aggregate.probe _ _ _ _) as [h1| |] eqn:Hp; try done.
    intros [= <- <-]. right. by exists l1, gz, l2.
Qed.

Lemma add_zones_only_coord (fuel : nat) (zone : Zone.t) (entry : GathererEntry.t)
      (zs zs' : list GathererZone.t) (h h' : heap) :
  Aggregate.add_zones fuel zone entry zs h = Return (zs', h') →
  only_coord (GathererEntry.coordinate entry) h h'.
Proof.
  intros H. destruct (add_zones_Return _ _ _ _ _ _ _ H)
    as [(_ & _ & ->)|(l1 & gz & l2 & _ & _ & _ & Hp & _)].
  - apply only_coord_refl.
  - by eapply probe_only_coord.
Qed.

Lemma add_Return (fuel : nat) (self self' : Aggregate.t) (zone : Zone.t)
      (entry : GathererEntry.t) (h h' : heap) :
  Aggregate.add fuel self zone entry h = Return (self', h') →
  Aggregate.type self' = Aggregate.type self
  ∧ Aggregate.add_zones fuel zone entry (Aggregate.zones self) h
    = Return (Aggregate.zones self', h').
Proof.
  unfold Aggregate.add.
  destruct (Aggregate.add_zones _ _ _ _ _) as [[zs h1]| |]; try done.
  by intros [= <- <-].
Qed.

Lemma total_app (ty : string) (l1 l2 : list GathererZone.t) :
  total (Aggregate.mk ty (l1 ++ l2))
  = (total (Aggregate.mk ty l1) + total (Aggregate.mk ty l2))%nat.
Proof. unfold total. simpl. by rewrite map_app, concat_app, length_app. Qed.

Lemma total_cons (ty : string) (gz : GathererZone.t) (l : list GathererZone.t) :
  total (Aggregate.mk ty (gz :: l))
  = (length (GathererZone.entries gz) + total (Aggregate.mk ty l))%nat.
Proof. unfold total. simpl. by rewrite length_app. Qed.

Lemma total_zones (self : Aggregate.t) :
  total self = total (Aggregate.mk "" (Aggregate.zones self)).
Proof. reflexivity. Qed.

(** [add] stores the entry once: when it returns, one bucket has the entry
    as its last one, either the first bucket of the zone or a new last bucket
    that holds nothing else; every other bucket is as it was; the aggregate
    holds one entry more, and no bucket is empty unless one was before. *)
Theorem add_stores_entry_once (fuel : nat) (self self' : Aggregate.t) (zone : Zone.t)
        (entry : GathererEntry.t) (h h' : heap) :
  Aggregate.add fuel self zone entry h = Return (self', h') →
  Aggregate.type self' = Aggregate.type self
  ∧ total self' = S (total self)
  ∧ (∃ l1 gz' l2,
        Aggregate.zones self' = l1 ++ gz' :: l2
        ∧ ((Aggregate.zones self = l1 ∧ l2 = [] ∧ gz' = GathererZone.mk zone [entry]
            ∧ no_bucket zone l1)
           ∨ ∃ gz, Aggregate.zones self = l1 ++ gz :: l2
                   ∧ no_bucket zone l1
                   ∧ Zone.eqb (GathererZone.zone gz) zone = true
                   ∧ GathererZone.zone gz' = GathererZone.zone gz
                   ∧ GathererZone.entries gz' = GathererZone.entries gz ++ [entry]))
  ∧ (Forall (fun gz => GathererZone.entries gz ≠ []) (Aggregate.zones self) →
     Forall (fun gz => GathererZone.entries gz ≠ []) (Aggregate.zones self')).
Proof.
  intros H. destruct (add_Return _ _ _ _ _ _ _ H) as [Hty Hz]. split; [done|].
  rewrite (total_zones self), (total_zones self').
  destruct (add_zones_Return _ _ _ _ _ _ _ Hz)
    as [(F & -> & ->)|(l1 & gz & l2 & -> & F & E & Hp & ->)].
  - split; [|split].
    + rewrite total_app, total_cons. simpl.
      change (total (Aggregate.mk "" [])) with 0%nat. lia.
    + exists (Aggregate.zones self), (GathererZone.mk zone [entry]), []. split; [done|].
      by left.
    + intros Hne. apply Forall_app. split; [done|]. by repeat constructor.
  - split; [|split].
    + rewrite !total_app, !total_cons. simpl. rewrite length_app. simpl. lia.
    + eexists l1, _, l2. split; [done|]. right. by exists gz.
    + rewrite !Forall_app, !Forall_cons. intros (? & ? & ?). repeat split; try done.
      simpl. by destruct (GathererZone.entries gz).
Qed.

Lemma add_stores_entry_once_witness :
  Aggregate.type (Aggregate.mk "Herb" [GathererZone.mk (Zone.mk "Z1" "5") [GathererEntry.mk 0%nat "A"]])
  = Aggregate.type (Aggregate.mk "Herb" [])
  ∧ total (Aggregate.mk "Herb" [GathererZone.mk (Zone.mk "Z1" "5") [GathererEntry.mk 0%nat "A"]])
    = S (total (Aggregate.mk "Herb" []))
  ∧ (∃ l1 gz' l2,
        Aggregate.zones (Aggregate.mk "Herb" [GathererZone.mk (Zone.mk "Z1" "5") [GathererEntry.mk 0%nat "A"]])
        = l1 ++ gz' :: l2
        ∧ ((Aggregate.zones (Aggregate.mk "Herb" []) = l1 ∧ l2 = []
            ∧ gz' = GathererZone.mk (Zone.mk "Z1" "5") [GathererEntry.mk 0%nat "A"]
            ∧ no_bucket (Zone.mk "Z1" "5") l1)
           ∨ ∃ gz, Aggregate.zones (Aggregate.mk "Herb" []) = l1 ++ gz :: l2
                   ∧ no_bucket (Zone.mk "Z1" "5") l1
                   ∧ Zone.eqb (GathererZone.zone gz) (Zone.mk "Z1" "5") = true
                   ∧ GathererZone.zone gz' = GathererZone.zone gz
                   ∧ GathererZone.entries gz'
                     = GathererZone.entries gz ++ [GathererEntry.mk 0%nat "A"]))
  ∧ (Forall (fun gz => GathererZone.entries gz ≠ []) (Aggregate.zones (Aggregate.mk "Herb" [])) →
     Forall (fun gz => GathererZone.entries gz ≠ [])
            (Aggregate.zones (Aggregate.mk "Herb" [GathererZone.mk (Zone.mk "Z1" "5")
                                                     [GathererEntry.mk 0%nat "A"]]))).
Proof.
  apply (add_stores_entry_once 0 (Aggregate.mk "Herb" []) _ (Zone.mk "Z1" "5")
           (GathererEntry.mk 0%nat "A") scenario_heap scenario_heap).
  reflexivity.
Defined.

Lemma key_lookup_total (r : ref) (h1 h2 : heap) :
  h1 !!! r = h2 !!! r → key r h1 = key r h2.
Proof.
  intros E. unfold key, Coordinate.as_gatherer_coord. rewrite E.
  destruct (_ =? _); [|done]. by destruct (Coordinate.encode _ _).
Qed.

Lemma all_refs_zones (ty : string) (l1 l2 : list GathererZone.t) (gz : GathererZone.t) (r : ref) :
  r ∈ all_refs (Aggregate.mk ty (l1 ++ gz :: l2)) ↔
  r ∈ all_refs (Aggregate.mk ty l1) ∨ r ∈ refs (GathererZone.entries gz)
  ∨ r ∈ all_refs (Aggregate.mk ty l2).
Proof.
  unfold all_refs. simpl. rewrite map_app, concat_app. simpl.
  by rewrite !elem_of_app.
Qed.

Lemma all_refs_bucket (self : Aggregate.t) (gz : GathererZone.t) (r : ref) :
  gz ∈ Aggregate.zones self → r ∈ refs (GathererZone.entries gz) → r ∈ all_refs self.
Proof.
  unfold all_refs. intros Hgz Hr.
  induction (Aggregate.zones self) as [|gz' zs IH]; [by apply elem_of_nil in Hgz|].
  simpl. apply elem_of_app. apply elem_of_cons in Hgz as [<-|Hgz]; auto.
Qed.

(** [add] writes one field: when it returns, the store is the one before
    except, at most, for the [coord] field of the entry's own [Coordinate];
    every other object is as it was, no position has changed, and the entries
    that were in the buckets read the keys they read before, as long as the
    added entry does not share its [Coordinate] with one of them. *)
Theorem add_changes_one_field (fuel : nat) (self self' : Aggregate.t) (zone : Zone.t)
        (entry : GathererEntry.t) (h h' : heap) :
  Aggregate.add fuel self zone entry h = Return (self', h') →
  only_coord (GathererEntry.coordinate entry) h h'
  ∧ (∀ r, r ≠ GathererEntry.coordinate entry → h' !! r = h !! r)
  ∧ (∀ r, Coordinate.x (h' !!! r) = Coordinate.x (h !!! r)
          ∧ Coordinate.y (h' !!! r) = Coordinate.y (h !!! r))
  ∧ (GathererEntry.coordinate entry ∉ all_refs self →
     ∀ r, r ∈ all_refs self → h' !!! r = h !!! r ∧ key r h' = key r h).
Proof.
  intros H. destruct (add_Return _ _ _ _ _ _ _ H) as [_ Hz].
  pose proof (add_zones_only_coord _ _ _ _ _ _ _ Hz) as Ho.
  split; [done|]. split; [|split].
  - intros r Hr. by eapply only_coord_lookup_ne.
  - intros r. by eapply only_coord_position.
  - intros Hfresh r Hr.
    assert (h' !!! r = h !!! r) as E.
    { eapply only_coord_lookup_total_ne; [done|]. by intros ->. }
    split; [done|]. by apply key_lookup_total.
Qed.

Lemma add_changes_one_field_witness :
  only_coord 1%nat scenario_heap
    (heap_of [Coordinate.new 10 10; Coordinate.mk 10 10 1000100001; Coordinate.new 0 0]).
Proof.
  apply (add_changes_one_field 1
           (Aggregate.mk "Herb" [GathererZone.mk (Zone.mk "Z1" "5") [GathererEntry.mk 0%nat "A"]])
           (Aggregate.mk "Herb" [GathererZone.mk (Zone.mk "Z1" "5")
                                   [GathererEntry.mk 0%nat "A"; GathererEntry.mk 1%nat "B"]])
           (Zone.mk "Z1" "5") (GathererEntry.mk 1%nat "B") scenario_heap).
  by vm_compute.
Defined.

(** ** The [while] loop of [add] *)

Lemma Coordinate_eta (c : Coordinate.t) :
  Coordinate.mk (Coordinate.x c) (Coordinate.y c) (Coordinate.coord c) = c.
Proof. by destruct c. Qed.

Lemma Coordinate_eqb_coord (a b : Coordinate.t) :
  Coordinate.eqb a b = true → Coordinate.coord a = Coordinate.coord b.
Proof.
  unfold Coordinate.eqb. rewrite !andb_true_iff. intros [_ H]. by apply Z.eqb_eq.
Qed.

Lemma contains_true (h : heap) (r : ref) (es : list GathererEntry.t) :
  Aggregate.contains h r es = true ↔
  ∃ e, e ∈ es ∧ (GathererEntry.coordinate e = r
                 ∨ Coordinate.eqb (h !!! GathererEntry.coordinate e) (h !!! r) = true).
Proof.
  unfold Aggregate.contains. rewrite existsb_exists. split.
  - intros (e & He & H). exists e. split; [by apply list_elem_of_In|].
    apply orb_true_iff in H as [H|H]; [left; by apply Nat.eqb_eq|by right].
  - intros (e & He & H). exists e. split; [by apply list_elem_of_In|].
    apply orb_true_iff. destruct H as [H|H]; [left; by apply Nat.eqb_eq|by right].
Qed.

Lemma refs_elem_of (es : list GathererEntry.t) (e : GathererEntry.t) :
  e ∈ es → GathererEntry.coordinate e ∈ refs es.
Proof. intros H. apply list_elem_of_fmap. by exists e. Qed.

Lemma coords_insert (h : heap) (es : list GathererEntry.t) (r : ref) (c : Coordinate.t) :
  r ∉ refs es → coords (<[r := c]> h) es = coords h es.
Proof.
  intros Hr. unfold coords. apply map_ext_in. intros e He.
  rewrite lookup_total_insert_ne; [done|].
  intros ->. apply Hr, refs_elem_of. by apply list_elem_of_In.
Qed.

Lemma above_mono (cs : list Z) (v w : Z) : v ≤ w → (above cs w ≤ above cs v)%nat.
Proof.
  intros Hvw. unfold above. induction cs as [|c cs IH]; simpl; [done|].
  destruct (Z.leb_spec w c), (Z.leb_spec v c); simpl; lia.
Qed.

Lemma above_lt (cs : list Z) (v w : Z) : v ∈ cs → v < w → (above cs w < above cs v)%nat.
Proof.
  intros Hin Hvw. induction cs as [|c cs IH]; [by apply elem_of_nil in Hin|].
  pose proof (above_mono cs v w ltac:(lia)) as Hm.
  apply elem_of_cons in Hin as [->|Hin]; [|specialize (IH Hin)];
    unfold above in *; simpl;
    repeat match goal with
           | |- context [Z.leb ?a ?b] => destruct (Z.leb_spec a b); simpl
           end; lia.
Qed.

Lemma above_le_length (cs : list Z) (v : Z) : (above cs v ≤ length cs)%nat.
Proof. unfold above. apply List.filter_length_le. Qed.

(** A collision with another object means that a [coord] field of the bucket
    equals the one of the entry. *)
Lemma contains_coords (h : heap) (r : ref) (es : list GathererEntry.t) :
  r ∉ refs es → Aggregate.contains h r es = true →
  Coordinate.coord (h !!! r) ∈ coords h es.
Proof.
  intros Hr H. apply contains_true in H as (e & He & [E|E]).
  - exfalso. apply Hr. rewrite <- E. by apply refs_elem_of.
  - rewrite <- (Coordinate_eqb_coord _ _ E). unfold coords.
    apply list_elem_of_fmap. by exists e.
Qed.

(** The loop ends: the field is never negative and goes up with every
    iteration, and each iteration needs an entry of the bucket with that very
    field. *)
Lemma probe_returns (fuel : nat) (r : ref) (es : list GathererEntry.t) (h : heap) (K : Z) :
  r ∉ refs es →
  0 ≤ Coordinate.coord (h !!! r) →
  Coordinate.encode (Coordinate.x (h !!! r)) (Coordinate.y (h !!! r)) = Return K →
  0 ≤ K →
  (above (coords h es) (Coordinate.coord (h !!! r)) ≤ fuel)%nat →
  ∃ h', Aggregate.probe fuel r es h = Return h'.
Proof.
  intros Hr. revert h. induction fuel as [|fuel IH]; intros h Hc HK HK0 Hfuel; simpl;
    destruct (Aggregate.contains h r es) eqn:Hin; try by eexists.
  - apply contains_coords in Hin; [|done].
    apply (above_lt _ _ (Coordinate.coord (h !!! r) + 1)) in Hin; [|lia].
    exfalso. lia.
  - assert (∃ k h1, Coordinate.as_gatherer_coord r h = Return (k, h1)
                    ∧ Coordinate.coord (h !!! r) ≤ k) as (k & h1 & Hk & Hle).
    { destruct (Z.eq_dec (Coordinate.coord (h !!! r)) 0) as [E|E].
      - rewrite as_gatherer_coord_unset, HK by done. do 2 eexists. split; [done|]. lia.
      - rewrite as_gatherer_coord_set by done. do 2 eexists. split; [done|]. lia. }
    rewrite (bump_Return _ _ _ _ Hk), outcome_bind_Return.
    apply contains_coords in Hin; [|done].
    apply (above_lt _ _ (k + 1)) in Hin; [|lia].
    apply IH; rewrite ?lookup_total_insert_eq; simpl; try done; try lia.
    rewrite coords_insert by done. lia.
Qed.

(** [add] returns when the entry's [Coordinate] is not one an entry of the
    aggregate has already, its field is not negative and its position has a
    key that is not negative; as many iterations as the aggregate has entries
    are enough. *)
Theorem add_returns (fuel : nat) (self : Aggregate.t) (zone : Zone.t)
        (entry : GathererEntry.t) (h : heap) (K : Z) :
  GathererEntry.coordinate entry ∉ all_refs self →
  0 ≤ Coordinate.coord (h !!! GathererEntry.coordinate entry) →
  Coordinate.encode (Coordinate.x (h !!! GathererEntry.coordinate entry))
                    (Coordinate.y (h !!! GathererEntry.coordinate entry)) = Return K →
  0 ≤ K →
  (total self ≤ fuel)%nat →
  ∃ self' h', Aggregate.add fuel self zone entry h = Return (self', h').
Proof.
  intros Hr Hc HK HK0 Hfuel. unfold Aggregate.add.
  destruct (zones_split zone (Aggregate.zones self)) as [F|(l1 & gz & l2 & E & F & Ez)].
  - rewrite add_zones_new by done. by do 2 eexists.
  - rewrite E, add_zones_found by done.
    destruct (probe_returns fuel (GathererEntry.coordinate entry) (GathererZone.entries gz) h K)
      as [h' ->]; try done.
    + intros Hin. apply Hr. eapply all_refs_bucket; [|done]. rewrite E.
      apply elem_of_app. right. by left.
    + etrans; [apply above_le_length|]. unfold coords. rewrite length_map.
      etrans; [|exact Hfuel]. rewrite total_zones, E, total_app, total_cons. lia.
    + by do 2 eexists.
Qed.

Lemma add_returns_witness :
  ∃ self' h', Aggregate.add 1
                (Aggregate.mk "Herb" [GathererZone.mk (Zone.mk "Z1" "5") [GathererEntry.mk 0%nat "A"]])
                (Zone.mk "Z1" "5") (GathererEntry.mk 1%nat "B") scenario_heap
              = Return (self', h').
Proof.
  apply (add_returns 1 _ (Zone.mk "Z1" "5") (GathererEntry.mk 1%nat "B") scenario_heap 1000100000).
  - unfold all_refs. simpl. rewrite elem_of_cons, elem_of_nil. intros [?|[]]. done.
  - by vm_compute.
  - by vm_compute.
  - lia.
  - by vm_compute.
Defined.

(** An entry whose [Coordinate] object is already the one of an entry of the
    bucket is found in it whatever its fields are: the loop of [add] does not
    end, [add] never returns. *)
Lemma probe_same_object (fuel : nat) (r : ref) (es : list GathererEntry.t) (h h' : heap) :
  r ∈ refs es → Aggregate.probe fuel r es h ≠ Return h'.
Proof.
  intros Hr. assert (∀ h, Aggregate.contains h r es = true) as Hin.
  { intros h0. apply contains_true. apply list_elem_of_fmap in Hr as (e & -> & He).
    exists e. split; [done|by left]. }
  revert h. induction fuel as [|fuel IH]; intros h; simpl; rewrite Hin; [done|].
  destruct (Aggregate.bump r h) as [h1| |]; try done.
  rewrite outcome_bind_Return. apply IH.
Qed.

Theorem add_same_object_never_returns (fuel : nat) (self : Aggregate.t) (zone : Zone.t)
        (entry : GathererEntry.t) (h : heap) (l1 l2 : list GathererZone.t)
        (gz : GathererZone.t) :
  Aggregate.zones self = l1 ++ gz :: l2 →
  no_bucket zone l1 →
  Zone.eqb (GathererZone.zone gz) zone = true →
  GathererEntry.coordinate entry ∈ refs (GathererZone.entries gz) →
  Aggregate.add fuel self zone entry h = Diverge
  ∨ ∃ e, Aggregate.add fuel self zone entry h = Raise e.
Proof.
  intros E F Ez Hr.
  destruct (Aggregate.add fuel self zone entry h) as [[self' h']|e|] eqn:H;
    [|right; by exists e|by left].
  destruct (add_Return _ _ _ _ _ _ _ H) as [_ Hz].
  rewrite E, add_zones_found in Hz by done.
  destruct (Aggregate.probe _ _ _ _) as [h1| |] eqn:Hp; try done.
  by apply probe_same_object in Hp.
Qed.

Lemma add_same_object_never_returns_witness :
  Aggregate.add 1000
    (Aggregate.mk "Herb" [GathererZone.mk (Zone.mk "Z1" "5") [GathererEntry.mk 0%nat "A"]])
    (Zone.mk "Z1" "5") (GathererEntry.mk 0%nat "B") scenario_heap
  = Diverge
  ∨ ∃ e, Aggregate.add 1000
           (Aggregate.mk "Herb" [GathererZone.mk (Zone.mk "Z1" "5") [GathererEntry.mk 0%nat "A"]])
           (Zone.mk "Z1" "5") (GathererEntry.mk 0%nat "B") scenario_heap
         = Raise e.
Proof.
  apply (add_same_object_never_returns 1000 _ (Zone.mk "Z1" "5") (GathererEntry.mk 0%nat "B")
           scenario_heap [] [] (GathererZone.mk (Zone.mk "Z1" "5") [GathererEntry.mk 0%nat "A"])).
  - reflexivity.
  - constructor.
  - reflexivity.
  - simpl. by left.
Defined.

(** ** Probing at one position *)

Lemma contains_taken (h : heap) (r : ref) (es : list GathererEntry.t) :
  r ∉ refs es →
  Aggregate.contains h r es
  = taken h es (Coordinate.x (h !!! r)) (Coordinate.y (h !!! r)) (Coordinate.coord (h !!! r)).
Proof.
  unfold Aggregate.contains, taken. rewrite Coordinate_eta.
  induction es as [|e es IH]; simpl; [done|].
  rewrite not_elem_of_cons. intros [Hne Hr]. rewrite IH by done.
  destruct (Nat.eqb_spec (GathererEntry.coordinate e) r); [congruence|done].
Qed.

Lemma taken_insert (h : heap) (es : list GathererEntry.t) (r : ref) (c : Coordinate.t)
      (vx vy : float) (v : Z) :
  r ∉ refs es → taken (<[r := c]> h) es vx vy v = taken h es vx vy v.
Proof.
  unfold taken. induction es as [|e es IH]; simpl; [done|].
  rewrite not_elem_of_cons. intros [Hne Hr].
  by rewrite IH, lookup_total_insert_ne.
Qed.

Lemma taken_only_coord (h h' : heap) (es : list GathererEntry.t) (r : ref)
      (vx vy : float) (v : Z) :
  r ∉ refs es → only_coord r h h' → taken h' es vx vy v = taken h es vx vy v.
Proof. intros Hr [->|[w ->]]; [done|]. by apply taken_insert. Qed.












Lemma Zone_eqb_refl (z : Zone.t) : Zone.eqb z z = true.
Proof. unfold Zone.eqb. by rewrite !String.eqb_refl. Qed.

Lemma all_refs_add (ty : string) (l1 l2 : list GathererZone.t) (gz : GathererZone.t)
      (e : GathererEntry.t) (r : ref) :
  r ∈ all_refs (Aggregate.mk ty
                  (l1 ++ GathererZone.mk (GathererZone.zone gz) (GathererZone.entries gz ++ [e]) :: l2))
  ↔ r ∈ all_refs (Aggregate.mk ty (l1 ++ gz :: l2)) ∨ r = GathererEntry.coordinate e.
Proof.
  rewrite !all_refs_zones. simpl. unfold refs at 1. rewrite map_app, elem_of_app. simpl.
  rewrite elem_of_cons, elem_of_nil. unfold refs. tauto.
Qed.

Lemma all_refs_new (ty : string) (zs : list GathererZone.t) (zone : Zone.t)
      (e : GathererEntry.t) (r : ref) :
  r ∈ all_refs (Aggregate.mk ty (zs ++ [GathererZone.mk zone [e]]))
  ↔ r ∈ all_refs (Aggregate.mk ty zs) ∨ r = GathererEntry.coordinate e.
Proof.
  rewrite all_refs_zones. simpl. unfold all_refs at 2. simpl.
  rewrite elem_of_cons, !elem_of_nil. tauto.
Qed.

Lemma all_refs_self (self : Aggregate.t) (r : ref) :
  r ∈ all_refs self ↔ r ∈ all_refs (Aggregate.mk "" (Aggregate.zones self)).
Proof. reflexivity. Qed.





Lemma key_only_coord (r r' : ref) (h h' : heap) :
  only_coord r h h' → r' ≠ r → key r' h' = key r' h.
Proof. intros Ho Hne. apply key_lookup_total. by eapply only_coord_lookup_total_ne. Qed.



Lemma add_total (fuel : nat) (self self' : Aggregate.t) (zone : Zone.t)
      (entry : GathererEntry.t) (h h' : heap) :
  Aggregate.add fuel self zone entry h = Return (self', h') → total self' = S (total self).
Proof.
  intros H. destruct (add_Return _ _ _ _ _ _ _ H) as [_ Hz].
  rewrite (total_zones self), (total_zones self').
  destruct (add_zones_Return _ _ _ _ _ _ _ Hz)
    as [(F & -> & ->)|(l1 & gz & l2 & -> & F & E & Hp & ->)].
  - rewrite total_app, total_cons. simpl.
    change (total (Aggregate.mk "" [])) with 0%nat. lia.
  - rewrite !total_app, !total_cons. simpl. rewrite length_app. simpl. lia.
Qed.




(** ** [__init__] *)

Lemma Zone_eqb_eq (a b : Zone.t) : Zone.eqb a b = true ↔ a = b.
Proof.
  unfold Zone.eqb. rewrite andb_true_iff, !String.eqb_eq.
  destruct a, b; simpl. split; [by intros [-> ->]|by intros [= -> ->]].
Qed.

Lemma no_bucket_not_elem (zone : Zone.t) (zs : list GathererZone.t) :
  no_bucket zone zs → zone ∉ map GathererZone.zone zs.
Proof.
  induction 1 as [|gz zs E _ IH]; simpl; [apply not_elem_of_nil|].
  apply not_elem_of_cons. split; [|done].
  intros ->. by rewrite Zone_eqb_refl in E.
Qed.

Lemma add_all_refs (fuel : nat) (self self' : Aggregate.t) (zone : Zone.t)
      (entry : GathererEntry.t) (h h' : heap) (r : ref) :
  Aggregate.add fuel self zone entry h = Return (self', h') →
  r ∈ all_refs self' ↔ r ∈ all_refs self ∨ r = GathererEntry.coordinate entry.
Proof.
  intros H. destruct (add_Return _ _ _ _ _ _ _ H) as [_ Hz].
  rewrite (all_refs_self self), (all_refs_self self').
  destruct (add_zones_Return _ _ _ _ _ _ _ Hz)
    as [(F & -> & ->)|(l1 & gz & l2 & -> & F & E & Hp & ->)].
  - apply all_refs_new.
  - apply all_refs_add.
Qed.

(** One bucket per zone, none of them empty: what [add] keeps. *)
Lemma add_buckets (fuel : nat) (self self' : Aggregate.t) (zone : Zone.t)
      (entry : GathererEntry.t) (h h' : heap) :
  Aggregate.add fuel self zone entry h = Return (self', h') →
  NoDup (map GathererZone.zone (Aggregate.zones self)) →
  Forall (fun gz => GathererZone.entries gz ≠ []) (Aggregate.zones self) →
  NoDup (map GathererZone.zone (Aggregate.zones self'))
  ∧ Forall (fun gz => GathererZone.entries gz ≠ []) (Aggregate.zones self').
Proof.
  intros H Hnd Hne.
  destruct (add_stores_entry_once _ _ _ _ _ _ _ H) as (_ & _ & Hshape & Hne').
  split; [|by apply Hne'].
  destruct Hshape as (l1 & gz' & l2 & -> & [(E & -> & -> & F)|(gz & E & F & Ez & Ezone & _)]).
  - rewrite E in Hnd. rewrite map_app. simpl. apply NoDup_app. split; [done|].
    split; [|apply NoDup_singleton].
    intros z Hz Hz'. apply list_elem_of_singleton in Hz' as ->.
    by apply (no_bucket_not_elem _ _ F).
  - rewrite E in Hnd. rewrite map_app in Hnd |- *. simpl in *. by rewrite Ezone.
Qed.

Section Init.
Context (fuel : nat).

(** What the loops of [__init__] keep, [rest] being the [Coordinate] objects
    still to be added: the aggregate is built by [add], has one bucket per
    zone and no empty bucket, and the objects of [rest] are as the
    constructor left them and belong to no entry. *)
Let inv (self : Aggregate.t) (h : heap) (rest : list ref) : Prop :=
  built self h
  ∧ NoDup (map GathererZone.zone (Aggregate.zones self))
  ∧ Forall (fun gz => GathererZone.entries gz ≠ []) (Aggregate.zones self)
  ∧ ∀ r, r ∈ rest → (r ∉ all_refs self) ∧ Coordinate.coord (h !!! r) = 0.

Lemma add_coords_inv (zone : Zone.t) (code : string) (cs rest : list ref) :
  ∀ (self self' : Aggregate.t) (h h' : heap),
    NoDup (cs ++ rest) →
    inv self h (cs ++ rest) →
    Aggregate.add_coords fuel self zone code cs h = Return (self', h') →
    inv self' h' rest
    ∧ Aggregate.type self' = Aggregate.type self
    ∧ total self' = (total self + length cs)%nat
    ∧ (∀ r, r ∈ all_refs self' ↔ r ∈ all_refs self ∨ r ∈ cs)
    ∧ (∀ r, r ∉ cs → h' !! r = h !! r).
Proof.
  induction cs as [|c cs IH]; intros self self' h h' Hnd Hinv; simpl.
  - intros [= <- <-]. rewrite Nat.add_0_r. do 3 (split; [done|]). split; [|done].
    intros r. rewrite elem_of_nil. tauto.
  - destruct (Aggregate.add fuel self zone _ h) as [[self1 h1]| |] eqn:Ha; try done.
    rewrite outcome_bind_Return. intros Hcs.
    destruct Hinv as (Hb & Hz & Hne & Hrest).
    apply NoDup_cons in Hnd as [Hc Hnd].
    destruct (Hrest c ltac:(by left)) as [Hc0 Hc1].
    destruct (add_buckets _ _ _ _ _ _ _ Ha Hz Hne) as [Hz1 Hne1].
    destruct (add_changes_one_field _ _ _ _ _ _ _ Ha) as (Ho & Hframe & _).
    destruct (add_stores_entry_once _ _ _ _ _ _ _ Ha) as (Hty & Htot & _).
    destruct (IH self1 self' h1 h' Hnd) as (Hinv' & Hty' & Htot' & Hrefs' & Hframe'); [|done|].
    { split; [eapply built_add; [exact Hb| |exact Ha]; by split|]. split; [done|]. split; [done|].
      intros r Hr. destruct (Hrest r ltac:(by right)) as [Hr0 Hr1]. split.
      - rewrite (add_all_refs _ _ _ _ _ _ _ r Ha). simpl. intros [? | ->]; done.
      - rewrite <- Hr1. f_equal. eapply only_coord_lookup_total_ne; [done|].
        simpl. by intros ->. }
    split; [done|]. split; [congruence|]. split; [lia|]. split.
    + intros r. rewrite Hrefs', (add_all_refs _ _ _ _ _ _ _ r Ha), elem_of_cons. simpl. tauto.
    + intros r Hr. apply not_elem_of_cons in Hr as [Hr1 Hr2].
      rewrite (Hframe' r Hr2). by apply Hframe.
Qed.

Lemma add_object_inv (code : string) (cs : list (Zone.t * list ref)) (rest : list ref) :
  ∀ (self self' : Aggregate.t) (h h' : heap),
    NoDup (concat (map snd cs) ++ rest) →
    inv self h (concat (map snd cs) ++ rest) →
    Aggregate.add_object fuel self code cs h = Return (self', h') →
    inv self' h' rest
    ∧ Aggregate.type self' = Aggregate.type self
    ∧ total self' = (total self + length (concat (map snd cs)))%nat
    ∧ (∀ r, r ∈ all_refs self' ↔ r ∈ all_refs self ∨ r ∈ concat (map snd cs))
    ∧ (∀ r, r ∉ concat (map snd cs) → h' !! r = h !! r).
Proof.
  induction cs as [|[zone coords] cs IH]; intros self self' h h' Hnd Hinv; simpl.
  - intros [= <- <-]. rewrite Nat.add_0_r. do 3 (split; [done|]). split; [|done].
    intros r. rewrite elem_of_nil. tauto.
  - destruct (Aggregate.add_coords fuel self zone code coords h) as [[self1 h1]| |] eqn:Ha;
      try done.
    rewrite outcome_bind_Return. intros Hcs.
    simpl in Hnd, Hinv. rewrite <- app_assoc in Hnd, Hinv.
    destruct (add_coords_inv _ _ _ _ _ _ _ _ Hnd Hinv Ha)
      as (Hinv1 & Hty & Htot & Hrefs & Hframe).
    apply NoDup_app in Hnd as (_ & _ & Hnd).
    destruct (IH _ _ _ _ Hnd Hinv1 Hcs) as (Hinv' & Hty' & Htot' & Hrefs' & Hframe').
    split; [done|]. split; [congruence|]. split; [rewrite length_app; lia|]. split.
    + intros r. rewrite Hrefs', Hrefs, elem_of_app. tauto.
    + intros r Hr. apply not_elem_of_app in Hr as [Hr1 Hr2].
      rewrite (Hframe' r Hr2). by apply Hframe.
Qed.

Lemma add_objects_inv (objects : list WowheadObject.t) :
  ∀ (self self' : Aggregate.t) (h h' : heap),
    NoDup (objects_refs objects) →
    inv self h (objects_refs objects) →
    Aggregate.add_objects fuel self objects h = Return (self', h') →
    inv self' h' []
    ∧ Aggregate.type self' = Aggregate.type self
    ∧ total self' = (total self + length (objects_refs objects))%nat
    ∧ (∀ r, r ∈ all_refs self' ↔ r ∈ all_refs self ∨ r ∈ objects_refs objects)
    ∧ (∀ r, r ∉ objects_refs objects → h' !! r = h !! r).
Proof.
  unfold objects_refs.
  induction objects as [|o objects IH]; intros self self' h h' Hnd Hinv; simpl.
  - intros [= <- <-]. rewrite Nat.add_0_r. do 3 (split; [done|]). split; [|done].
    intros r. rewrite elem_of_nil. tauto.
  - destruct (Aggregate.add_object fuel self _ _ h) as [[self1 h1]| |] eqn:Ha; try done.
    rewrite outcome_bind_Return. intros Hcs. simpl in Hnd, Hinv.
    destruct (add_object_inv _ _ _ _ _ _ _ Hnd Hinv Ha)
      as (Hinv1 & Hty & Htot & Hrefs & Hframe).
    apply NoDup_app in Hnd as (_ & _ & Hnd).
    destruct (IH _ _ _ _ Hnd Hinv1 Hcs) as (Hinv' & Hty' & Htot' & Hrefs' & Hframe').
    split; [done|]. split; [congruence|].
    split; [rewrite length_app; unfold object_refs in *; lia|]. split.
    + intros r. rewrite Hrefs', Hrefs, elem_of_app. unfold object_refs. tauto.
    + intros r Hr. apply not_elem_of_app in Hr as [Hr1 Hr2].
      rewrite (Hframe' r Hr2). by apply Hframe.
Qed.

End Init.

(** [__init__] on objects whose [Coordinate] objects are pairwise different
    and as the constructor left them: when it returns, the aggregate has the
    given type, one entry per [Coordinate] and no other, one bucket per zone
    and no empty bucket; it is built by [add] on fresh objects; and the store
    is unchanged outside the [Coordinate] objects given. *)
Theorem init_stores_every_sample (fuel : nat) (type : string)
        (objects : list WowheadObject.t) (h h' : heap) (self : Aggregate.t) :
  NoDup (objects_refs objects) →
  (∀ r, r ∈ objects_refs objects → Coordinate.coord (h !!! r) = 0) →
  Aggregate.init fuel type objects h = Return (self, h') →
  Aggregate.type self = type
  ∧ total self = length (objects_refs objects)
  ∧ (∀ r, r ∈ all_refs self ↔ r ∈ objects_refs objects)
  ∧ NoDup (map GathererZone.zone (Aggregate.zones self))
  ∧ Forall (fun gz => GathererZone.entries gz ≠ []) (Aggregate.zones self)
  ∧ built self h'
  ∧ (∀ r, r ∉ objects_refs objects → h' !! r = h !! r).
Proof.
  intros Hnd Hfresh Hinit.
  destruct (add_objects_inv fuel objects (Aggregate.mk type []) self h h' Hnd)
    as ((Hb & Hz & Hne & _) & Hty & Htot & Hrefs & Hframe); [|done|].
  { split; [constructor|]. split; [constructor|]. split; [constructor|].
    intros r Hr. split; [apply not_elem_of_nil|by apply Hfresh]. }
  repeat split; try done.
  - intros Hr. apply Hrefs in Hr as [Hr|Hr]; [by apply elem_of_nil in Hr|done].
  - intros Hr. apply Hrefs. by right.
Qed.

Lemma init_stores_every_sample_witness :
  total (Aggregate.mk "Herb"
           [GathererZone.mk (Zone.mk "Z1" "5") [GathererEntry.mk 0%nat "A"; GathererEntry.mk 1%nat "B"];
            GathererZone.mk (Zone.mk "Z2" "3") [GathererEntry.mk 2%nat "C"]])
  = length (objects_refs scenario_objects).
Proof.
  apply (init_stores_every_sample 3 "Herb" scenario_objects scenario_heap
           (heap_of [Coordinate.new 10 10; Coordinate.mk 10 10 1000100001; Coordinate.new 0 0])).
  - apply NoDup_ListNoDup. repeat constructor; simpl; intuition lia.
  - intros r Hr. apply list_elem_of_In in Hr. simpl in Hr.
    destruct Hr as [<-|[<-|[<-|[]]]]; by vm_compute.
  - by vm_compute.
Defined.

Section InitReturns.
Context (fuel : nat).

(** The [Coordinate] objects still to be added are as the constructor left
    them, belong to no entry, and their positions have keys that are not
    negative. *)
Let ready (self : Aggregate.t) (h : heap) (rest : list ref) : Prop :=
  ∀ r, r ∈ rest →
       (r ∉ all_refs self)
       ∧ Coordinate.coord (h !!! r) = 0
       ∧ ∃ K, Coordinate.encode (Coordinate.x (h !!! r)) (Coordinate.y (h !!! r)) = Return K
              ∧ 0 ≤ K.

Lemma add_coords_returns (zone : Zone.t) (code : string) (cs rest : list ref) :
  ∀ (self : Aggregate.t) (h : heap),
    NoDup (cs ++ rest) →
    ready self h (cs ++ rest) →
    (total self + length cs ≤ fuel)%nat →
    ∃ self' h',
      Aggregate.add_coords fuel self zone code cs h = Return (self', h')
      ∧ ready self' h' rest
      ∧ total self' = (total self + length cs)%nat.
Proof.
  induction cs as [|c cs IH]; intros self h Hnd Hready Hfuel; simpl.
  - exists self, h. rewrite Nat.add_0_r. done.
  - apply NoDup_cons in Hnd as [Hc Hnd].
    destruct (Hready c ltac:(by left)) as (Hc0 & Hc1 & K & HK & HK0).
    destruct (add_returns fuel self zone (GathererEntry.mk c code) h K)
      as (self1 & h1 & Ha); simpl; try done; try lia.
    rewrite Ha, outcome_bind_Return.
    destruct (add_changes_one_field _ _ _ _ _ _ _ Ha) as (Ho & _).
    pose proof (add_total _ _ _ _ _ _ _ Ha) as Htot.
    destruct (IH self1 h1 Hnd) as (self' & h' & Hcs & Hready' & Htot'); [|simpl in *; lia|].
    { intros r Hr. destruct (Hready r ltac:(by right)) as (Hr0 & Hr1 & Henc).
      assert (h1 !!! r = h !!! r) as ->.
      { eapply only_coord_lookup_total_ne; [done|]. simpl. by intros ->. }
      split; [|done].
      rewrite (add_all_refs _ _ _ _ _ _ _ r Ha). simpl. intros [? | ->]; done. }
    exists self', h'. split; [done|]. split; [done|]. simpl. lia.
Qed.

Lemma add_object_returns (code : string) (cs : list (Zone.t * list ref)) (rest : list ref) :
  ∀ (self : Aggregate.t) (h : heap),
    NoDup (concat (map snd cs) ++ rest) →
    ready self h (concat (map snd cs) ++ rest) →
    (total self + length (concat (map snd cs)) ≤ fuel)%nat →
    ∃ self' h',
      Aggregate.add_object fuel self code cs h = Return (self', h')
      ∧ ready self' h' rest
      ∧ total self' = (total self + length (concat (map snd cs)))%nat.
Proof.
  induction cs as [|[zone coords] cs IH]; intros self h Hnd Hready Hfuel; simpl.
  - exists self, h. rewrite Nat.add_0_r. done.
  - simpl in Hnd, Hready, Hfuel. rewrite <- app_assoc in Hnd, Hready.
    rewrite length_app in Hfuel.
    destruct (add_coords_returns zone code coords _ self h Hnd Hready)
      as (self1 & h1 & Ha & Hready1 & Htot1); [lia|].
    rewrite Ha, outcome_bind_Return.
    apply NoDup_app in Hnd as (_ & _ & Hnd).
    destruct (IH self1 h1 Hnd Hready1) as (self' & h' & Hcs & Hready' & Htot'); [lia|].
    exists self', h'. split; [done|]. split; [done|]. rewrite length_app. lia.
Qed.

Lemma add_objects_returns (objects : list WowheadObject.t) :
  ∀ (self : Aggregate.t) (h : heap),
    NoDup (objects_refs objects) →
    ready self h (objects_refs objects) →
    (total self + length (objects_refs objects) ≤ fuel)%nat →
    ∃ self' h', Aggregate.add_objects fuel self objects h = Return (self', h').
Proof.
  unfold objects_refs.
  induction objects as [|o objects IH]; intros self h Hnd Hready Hfuel; simpl.
  - by exists self, h.
  - simpl in Hnd, Hready, Hfuel. rewrite length_app in Hfuel.
    destruct (add_object_returns (WowheadObject.gathermate_id o) (WowheadObject.coordinates o)
                _ self h Hnd Hready) as (self1 & h1 & Ha & Hready1 & Htot1).
    { unfold object_refs in Hfuel. lia. }
    rewrite Ha, outcome_bind_Return.
    apply NoDup_app in Hnd as (_ & _ & Hnd).
    apply (IH self1 h1 Hnd Hready1). unfold object_refs in *. lia.
Qed.

End InitReturns.

(** [__init__] returns, without an exception, on objects whose [Coordinate]
    objects are pairwise different, as the constructor left them, and at
    positions with keys that are not negative; no loop of [add] needs more
    iterations than there are samples. *)
Theorem init_returns (fuel : nat) (type : string) (objects : list WowheadObject.t) (h : heap) :
  NoDup (objects_refs objects) →
  (∀ r, r ∈ objects_refs objects →
        Coordinate.coord (h !!! r) = 0
        ∧ ∃ K, Coordinate.encode (Coordinate.x (h !!! r)) (Coordinate.y (h !!! r)) = Return K
               ∧ 0 ≤ K) →
  (length (objects_refs objects) ≤ fuel)%nat →
  ∃ self h', Aggregate.init fuel type objects h = Return (self, h').
Proof.
  intros Hnd Hready Hfuel. apply add_objects_returns; try done.
  intros r Hr. split; [apply not_elem_of_nil|by apply Hready].
Qed.

Lemma init_returns_witness :
  ∃ self h', Aggregate.init 3 "Herb" scenario_objects scenario_heap = Return (self, h').
Proof.
  apply init_returns.
  - apply NoDup_ListNoDup. repeat constructor; simpl; intuition lia.
  - intros r Hr. apply list_elem_of_In in Hr. simpl in Hr.
    destruct Hr as [<-|[<-|[<-|[]]]].
    + split; [by vm_compute|]. exists 1000100000. split; [by vm_compute|lia].
    + split; [by vm_compute|]. exists 1000100000. split; [by vm_compute|lia].
    + split; [by vm_compute|]. exists 0. split; [by vm_compute|lia].
  - simpl. lia.
Defined.

(** ** Printing twice *)

Lemma settled_read (r : ref) (h h1 : heap) (k : Z) :
  Coordinate.as_gatherer_coord r h = Return (k, h1) → settled h1 r k.
Proof. apply as_gatherer_coord_again. Qed.

(** A read of one key leaves the settled keys settled. *)
Lemma settled_preserved (r r2 : ref) (h h2 : heap) (k k2 : Z) :
  settled h r k → Coordinate.as_gatherer_coord r2 h = Return (k2, h2) → settled h2 r k.
Proof.
  unfold settled. intros Hs H2. destruct (decide (r = r2)) as [->|Hne].
  { rewrite Hs in H2. by injection H2 as <- <-. }
  destruct (as_gatherer_coord_Return _ _ _ _ H2) as [-> _].
  destruct (as_gatherer_coord_Return _ _ _ _ Hs) as [Hh Hk].
  assert (h !! r = Some (Coordinate.set_coord k (h !!! r))) as Hr.
  { rewrite Hh at 1. by rewrite lookup_insert_eq. }
  set (h2 := <[r2 := Coordinate.set_coord k2 (h !!! r2)]> h).
  assert (h2 !!! r = h !!! r) as Hc by (by apply lookup_total_insert_ne).
  assert (<[r := Coordinate.set_coord k (h2 !!! r)]> h2 = h2) as Hid.
  { apply insert_id. unfold h2. rewrite lookup_insert_ne by done.
    by rewrite lookup_total_insert_ne. }
  destruct Hk as [Hk|[Hk0 Hk]].
  - destruct (Z.eq_dec k 0) as [->|Hk0].
    + revert Hs. rewrite !as_gatherer_coord_unset by (by rewrite ?Hc).
      rewrite Hc. destruct (Coordinate.encode _ _) as [k'| |]; try done.
      rewrite !outcome_bind_Return. intros [= -> _]. by rewrite <- Hc, Hid.
    + rewrite as_gatherer_coord_set by (rewrite Hc; congruence). by rewrite Hc, Hk.
  - rewrite as_gatherer_coord_unset by (by rewrite Hc). rewrite Hc, Hk, outcome_bind_Return.
    by rewrite <- Hc, Hid.
Qed.

Lemma keys_settled (es : list GathererEntry.t) :
  ∀ (h h1 : heap) (ks : list (Z * GathererEntry.t)),
    GathererZone.keys es h = Return (ks, h1) →
    Forall (fun ke => settled h1 (GathererEntry.coordinate (snd ke)) (fst ke)) ks
    ∧ ∀ r k, settled h r k → settled h1 r k.
Proof.
  induction es as [|e es IH]; simpl; intros h h1 ks.
  - intros [= <- <-]. by split.
  - destruct (Coordinate.as_gatherer_coord _ _) as [[k h2]| |] eqn:Hk; try done.
    rewrite outcome_bind_Return.
    destruct (GathererZone.keys es h2) as [[ks' h3]| |] eqn:Hks; try done.
    intros [= <- <-]. destruct (IH _ _ _ Hks) as [F P]. split.
    + constructor; [|done]. simpl. apply P. by eapply settled_read.
    + intros r k' Hs. apply P. by eapply settled_preserved.
Qed.

Lemma keys_of_settled (h : heap) (ks : list (Z * GathererEntry.t)) :
  Forall (fun ke => settled h (GathererEntry.coordinate (snd ke)) (fst ke)) ks →
  GathererZone.keys (map snd ks) h = Return (ks, h).
Proof.
  induction 1 as [|[k e] ks Hs _ IH]; simpl; [done|].
  simpl in Hs. unfold settled in Hs. by rewrite Hs, outcome_bind_Return, IH.
Qed.

Lemma layout_zones_settled (zs : list GathererZone.t) :
  ∀ (h h' : heap) (l : list (Zone.t * list (Z * GathererEntry.t))),
    Aggregate.layout_zones zs h = Return (l, h') →
    (∀ r k, settled h r k → settled h' r k)
    ∧ Aggregate.layout_zones zs h' = Return (l, h').
Proof.
  induction zs as [|z zs IH]; simpl; intros h h' l.
  - intros [= <- <-]. by split.
  - unfold GathererZone.sorted_entries.
    destruct (GathererZone.keys _ h) as [[ks h1]| |] eqn:Hks; try done.
    rewrite !outcome_bind_Return.
    destruct (Aggregate.layout_zones zs h1) as [[l' h2]| |] eqn:Hl; try done.
    intros [= <- <-]. destruct (IH _ _ _ Hl) as [P Hl'].
    destruct (keys_settled _ _ _ _ Hks) as [F P1]. split.
    + intros r k Hs. by apply P, P1.
    + rewrite <- (keys_Return _ _ _ _ Hks).
      rewrite keys_of_settled; [by rewrite !outcome_bind_Return, Hl'|].
      eapply Forall_impl; [exact F|]. intros ke Hs. by apply P.
Qed.

(** Printing is idempotent: the store that [__repr__] leaves, with the keys
    it has computed, gives the same text again and is left as it is. *)
Theorem repr_idempotent (self : Aggregate.t) (h h' : heap) (s : string) :
  Aggregate.repr self h = Return (s, h') →
  Aggregate.repr self h' = Return (s, h').
Proof.
  unfold Aggregate.repr, Aggregate.layout.
  destruct (Aggregate.sorted_zones _) as [zs| |]; try done.
  rewrite !outcome_bind_Return.
  destruct (Aggregate.layout_zones zs h) as [[l h1]| |] eqn:Hl; try done.
  intros [= <- <-]. destruct (layout_zones_settled _ _ _ _ Hl) as [_ ->]. done.
Qed.

Lemma repr_idempotent_witness :
  Aggregate.repr
    (Aggregate.mk "Herb"
       [GathererZone.mk (Zone.mk "Z1" "5") [GathererEntry.mk 0%nat "A"; GathererEntry.mk 1%nat "B"];
        GathererZone.mk (Zone.mk "Z2" "3") [GathererEntry.mk 2%nat "C"]])
    (heap_of [Coordinate.mk 10 10 1000100000; Coordinate.mk 10 10 1000100001; Coordinate.new 0 0])
  = Return (scenario_text,
            heap_of [Coordinate.mk 10 10 1000100000; Coordinate.mk 10 10 1000100001;
                     Coordinate.new 0 0]).
Proof.
  apply (repr_idempotent _
           (heap_of [Coordinate.new 10 10; Coordinate.mk 10 10 1000100001; Coordinate.new 0 0])).
  by vm_compute.
Defined.

(** ** Printing everything *)

Lemma key_preserved (r r2 : ref) (h h2 : heap) (k2 : Z) :
  Coordinate.as_gatherer_coord r2 h = Return (k2, h2) → key r h2 = key r h.
Proof.
  intros H2. destruct (decide (r = r2)) as [->|Hne].
  - unfold key. by rewrite (as_gatherer_coord_again _ _ _ _ H2), H2.
  - eapply key_only_coord; [|done]. by eapply as_gatherer_coord_only_coord.
Qed.

Lemma keys_key (es : list GathererEntry.t) :
  ∀ (h h1 : heap) (ks : list (Z * GathererEntry.t)),
    GathererZone.keys es h = Return (ks, h1) →
    Forall (fun ke => key (GathererEntry.coordinate (snd ke)) h = Return (fst ke)) ks
    ∧ ∀ r, key r h1 = key r h.
Proof.
  induction es as [|e es IH]; simpl; intros h h1 ks.
  - intros [= <- <-]. by split.
  - destruct (Coordinate.as_gatherer_coord _ _) as [[k h2]| |] eqn:Hk; try done.
    rewrite outcome_bind_Return.
    destruct (GathererZone.keys es h2) as [[ks' h3]| |] eqn:Hks; try done.
    intros [= <- <-]. destruct (IH _ _ _ Hks) as [F P]. split.
    + constructor; simpl; [unfold key; by rewrite Hk|].
      eapply Forall_impl; [exact F|]. intros ke Hke. simpl in Hke.
      by rewrite <- (key_preserved _ _ _ _ _ Hk).
    + intros r. by rewrite P, (key_preserved _ _ _ _ _ Hk).
Qed.

Lemma layout_zones_key (zs : list GathererZone.t) :
  ∀ (h h' : heap) (l : list (Zone.t * list (Z * GathererEntry.t))),
    Aggregate.layout_zones zs h = Return (l, h') →
    Forall2 (fun z zk =>
               fst zk = GathererZone.zone z
               ∧ Permutation (GathererZone.entries z) (map snd (snd zk))
               ∧ Forall (fun ke => key (GathererEntry.coordinate (snd ke)) h = Return (fst ke))
                        (snd zk)) zs l
    ∧ ∀ r, key r h' = key r h.
Proof.
  induction zs as [|z zs IH]; simpl; intros h h' l.
  - intros [= <- <-]. split; [constructor|done].
  - destruct (GathererZone.sorted_entries z h) as [[ks h1]| |] eqn:Hks; try done.
    rewrite outcome_bind_Return.
    destruct (Aggregate.layout_zones zs h1) as [[l' h2]| |] eqn:Hl; try done.
    intros [= <- <-]. destruct (IH _ _ _ Hl) as [F P].
    destruct (sorted_entries_Return _ _ _ _ Hks) as [Pk _].
    revert Hks. unfold GathererZone.sorted_entries.
    destruct (GathererZone.keys _ h) as [[ks0 h0]| |] eqn:Hks0; try done.
    rewrite outcome_bind_Return. intros [= <- <-].
    destruct (keys_key _ _ _ _ Hks0) as [Fk Pk0]. split.
    + constructor.
      * split; [done|]. split; [done|]. simpl.
        by rewrite <- sorted_by_key_Permutation.
      * eapply Forall2_impl; [exact F|]. intros z' zk (? & ? & Hkeys).
        split; [done|]. split; [done|].
        eapply Forall_impl; [exact Hkeys|]. intros ke Hke. simpl in Hke. by rewrite <- Pk0.
    + intros r. by rewrite P, Pk0.
Qed.

(** Nothing is lost in printing: the text is the rendering of a layout that
    has every bucket of the aggregate once and, in each, every entry of the
    bucket once, each under the key that reading its [Coordinate] gives. *)
Theorem repr_prints_every_entry (self : Aggregate.t) (h h' : heap) (s : string) :
  Aggregate.repr self h = Return (s, h') →
  ∃ l zs,
    s = Aggregate.render (Aggregate.type self) l
    ∧ Permutation (Aggregate.zones self) zs
    ∧ Forall2 (fun z zk =>
                 fst zk = GathererZone.zone z
                 ∧ Permutation (GathererZone.entries z) (map snd (snd zk))
                 ∧ Forall (fun ke => key (GathererEntry.coordinate (snd ke)) h = Return (fst ke))
                          (snd zk)) zs l
    ∧ ∀ r, key r h' = key r h.
Proof.
  unfold Aggregate.repr, Aggregate.layout.
  destruct (Aggregate.sorted_zones _) as [zs| |] eqn:Hzs; try done.
  rewrite !outcome_bind_Return.
  destruct (Aggregate.layout_zones zs h) as [[l h1]| |] eqn:Hl; try done.
  intros [= <- <-]. exists l, zs. split; [done|].
  destruct (sorted_zones_Return _ _ Hzs) as [P _].
  destruct (layout_zones_key _ _ _ _ Hl) as [F Pk]. done.
Qed.

Lemma repr_prints_every_entry_witness :
  ∃ l zs,
    scenario_text = Aggregate.render "Herb" l
    ∧ Permutation
        [GathererZone.mk (Zone.mk "Z1" "5") [GathererEntry.mk 0%nat "A"; GathererEntry.mk 1%nat "B"];
         GathererZone.mk (Zone.mk "Z2" "3") [GathererEntry.mk 2%nat "C"]] zs
    ∧ Forall2 (fun z zk =>
                 fst zk = GathererZone.zone z
                 ∧ Permutation (GathererZone.entries z) (map snd (snd zk))
                 ∧ Forall (fun ke =>
                             key (GathererEntry.coordinate (snd ke))
                                 (heap_of [Coordinate.new 10 10; Coordinate.mk 10 10 1000100001;
                                           Coordinate.new 0 0])
                             = Return (fst ke))
                          (snd zk)) zs l
    ∧ ∀ r, key r (heap_of [Coordinate.mk 10 10 1000100000; Coordinate.mk 10 10 1000100001;
                           Coordinate.new 0 0])
           = key r (heap_of [Coordinate.new 10 10; Coordinate.mk 10 10 1000100001;
                             Coordinate.new 0 0]).
Proof.
  apply (repr_prints_every_entry
           (Aggregate.mk "Herb"
              [GathererZone.mk (Zone.mk "Z1" "5") [GathererEntry.mk 0%nat "A"; GathererEntry.mk 1%nat "B"];
               GathererZone.mk (Zone.mk "Z2" "3") [GathererEntry.mk 2%nat "C"]])).
  by vm_compute.
Defined.

(** ** The key as a number *)

Lemma axis_infinity (a : float) (s : bool) :
  Prim2SF a = S754_infinity s → axis a = Raise OverflowError.
Proof.
  intros H. unfold axis, math_floor.
  rewrite add_spec, mul_spec, div_spec, H. by destruct s.
Qed.

(** The two low decimal digits of a key computed from a position are 0, and
    the hundred values from a key on are no other position's: if [K + i] and
    [K' + j] coincide for keys [K], [K'] of positions and [i], [j] below 100,
    the keys and the offsets are the same. *)
Theorem reserved_bands_are_disjoint (vx vy wx wy : float) (K K' i j : Z) :
  Coordinate.encode vx vy = Return K →
  Coordinate.encode wx wy = Return K' →
  0 ≤ i < 100 → 0 ≤ j < 100 →
  K + i = K' + j →
  K mod 100 = 0 ∧ K = K' ∧ i = j.
Proof.
  intros HK HK' Hi Hj E.
  destruct (encode_multiple _ _ _ HK) as [q ->].
  destruct (encode_multiple _ _ _ HK') as [q' ->].
  split; [by apply Z_mod_mult|]. lia.
Qed.

Lemma reserved_bands_are_disjoint_witness :
  1000100000 mod 100 = 0 ∧ 1000100000 = 1000100000 ∧ 1 = 1.
Proof.
  apply (reserved_bands_are_disjoint 10 10 10 10 1000100000 1000100000 1 1); try lia;
    by vm_compute.
Defined.

(** The key tells grid points apart while the grid value of [y] stays within
    [0, 9999]: two positions with one key then have the same grid values on
    both axes.  At [y = 100.0] the grid value is 10000 and the key is the one
    of the next grid line of [x]: (0.0, 100.0) and (0.01, 0.0) both have the
    key 1000000. *)
Theorem key_separates_grid_points (vx vy wx wy : float) (a b a' b' K : Z) :
  axis vx = Return a → axis vy = Return b →
  axis wx = Return a' → axis wy = Return b' →
  0 ≤ b < 10000 → 0 ≤ b' < 10000 →
  Coordinate.encode vx vy = Return K → Coordinate.encode wx wy = Return K →
  (a = a' ∧ b = b')
  ∧ axis 100 = Return 10000
  ∧ Coordinate.encode 0 100 = Coordinate.encode 0.01 0.
Proof.
  intros Ha Hb Ha' Hb' Hr Hr'. rewrite !encode_axis, Ha, Hb, Ha', Hb'.
  rewrite !outcome_bind_Return. intros [= <-] [= E].
  split; [lia|]. split; by vm_compute.
Qed.

Lemma key_separates_grid_points_witness :
  (1000 = 1000 ∧ 1000 = 1000)
  ∧ axis 100 = Return 10000
  ∧ Coordinate.encode 0 100 = Coordinate.encode 0.01 0.
Proof.
  apply (key_separates_grid_points 10 10 10.001 10 1000 1000 1000 1000 1000100000);
    try lia; by vm_compute.
Defined.

(** A collision that the loop of [add] sees is a collision of keys: two
    [Coordinate] objects that compare equal read the same key. *)
Theorem equal_coordinates_read_equal_keys (r1 r2 : ref) (h : heap) :
  Coordinate.eqb (h !!! r1) (h !!! r2) = true → key r1 h = key r2 h.
Proof.
  unfold Coordinate.eqb. rewrite !andb_true_iff, Z.eqb_eq. intros [[Hx Hy] Hc].
  unfold key, Coordinate.as_gatherer_coord. rewrite Hc, (encode_eqb _ _ _ _ Hx Hy).
  destruct (_ =? _); [|done]. by destruct (Coordinate.encode _ _).
Qed.

Lemma equal_coordinates_read_equal_keys_witness :
  key 0%nat (heap_of [Coordinate.new 0 10; Coordinate.new (-0) 10])
  = key 1%nat (heap_of [Coordinate.new 0 10; Coordinate.new (-0) 10]).
Proof.
  apply equal_coordinates_read_equal_keys. by vm_compute.
Defined.

(** A position that is not a pair of numbers has no key: the read of a new
    [Coordinate] raises [ValueError] when [x] is a NaN and [OverflowError]
    when [x] is an infinity, and [ValueError] resp. [OverflowError] when [x]
    has a grid value and [y] is a NaN resp. an infinity. *)
Theorem read_of_non_number_raises (vx vy : float) (r : ref) (h : heap) :
  let read := Coordinate.as_gatherer_coord r (<[r := Coordinate.new vx vy]> h) in
  (Prim2SF vx = S754_nan → read = Raise ValueError)
  ∧ (∀ s, Prim2SF vx = S754_infinity s → read = Raise OverflowError)
  ∧ (∀ a, axis vx = Return a → Prim2SF vy = S754_nan → read = Raise ValueError)
  ∧ (∀ a s, axis vx = Return a → Prim2SF vy = S754_infinity s → read = Raise OverflowError).
Proof.
  simpl. rewrite as_gatherer_coord_unset by (by rewrite lookup_total_insert_eq).
  rewrite lookup_total_insert_eq. unfold Coordinate.new. simpl (Coordinate.x _).
  simpl (Coordinate.y _). rewrite encode_axis. repeat split.
  - intros H. by rewrite (axis_nan _ H).
  - intros s H. by rewrite (axis_infinity _ _ H).
  - intros a Ha H. by rewrite Ha, (axis_nan _ H).
  - intros a s Ha H. by rewrite Ha, (axis_infinity _ _ H).
Qed.

Lemma read_of_non_number_raises_witness :
  Coordinate.as_gatherer_coord 0%nat (<[0%nat := Coordinate.new nan 10]> ∅) = Raise ValueError.
Proof.
  apply (read_of_non_number_raises nan 10 0%nat ∅). reflexivity.
Defined.

(** ** The keys at one position *)

Lemma taken_fields (h : heap) (es : list GathererEntry.t) (vx vy : float) (v : Z) :
  taken h es vx vy v = true ↔ v ∈ fields h es vx vy.
Proof.
  unfold taken, fields. induction es as [|e es IH]; simpl.
  - split; [done|by intros ?%elem_of_nil].
  - rewrite orb_true_iff, IH. unfold Coordinate.eqb at 1. simpl.
    fold (at_pos h vx vy e). destruct (at_pos h vx vy e); simpl.
    + rewrite elem_of_cons, Z.eqb_eq. split; intros [?|?]; auto.
    + split; [by intros [?|?]|auto].
Qed.

Lemma elem_of_chain_fields (K v : Z) (n : nat) :
  v ∈ chain_fields K n ↔
  (0 < n)%nat ∧ (v = 0 ∨ ∃ m : nat, (0 < m < n)%nat ∧ v = K + Z.of_nat m).
Proof.
  destruct n as [|n]; simpl.
  - rewrite elem_of_nil. split; [done|lia].
  - rewrite elem_of_cons, list_elem_of_fmap. split.
    + intros [->|(m & -> & Hm)]; (split; [lia|]); [by left|].
      right. exists m. split; [|done].
      apply list_elem_of_In, in_seq in Hm. lia.
    + intros [_ [->|(m & Hm & ->)]]; [by left|]. right. exists m. split; [done|].
      apply list_elem_of_In, in_seq. lia.
Qed.

Lemma chain_of_fields (h : heap) (es : list GathererEntry.t) (vx vy : float) (K : Z) (n : nat) :
  fields h es vx vy = chain_fields K n → chain h es vx vy K n.
Proof. intros E v. by rewrite taken_fields, E, elem_of_chain_fields. Qed.













(** ** [__repr__], statement by statement *)








(** ** A key below zero *)

(** With a key [K = -n] the fields [0, K + 1, ..., -1] of [n] entries are a
    cycle: from the field [-1] the loop of [add] goes to 0, which marks an
    unset key, computes [K] again and starts over. *)
Lemma probe_cycle (r : ref) (es : list GathererEntry.t) (h : heap)
      (vx vy : float) (K : Z) (n : nat) :
  r ∉ refs es →
  Coordinate.encode vx vy = Return K →
  fields h es vx vy = chain_fields K n →
  K + Z.of_nat n = 0 →
  ∀ (fuel : nat) (h1 : heap) (m : nat),
    (m < n)%nat →
    only_coord r h h1 →
    h1 !!! r = Coordinate.mk vx vy (if m is O then 0 else K + Z.of_nat m) →
    Aggregate.probe fuel r es h1 = Diverge.
Proof.
  intros Hr Henc Hf HKn. pose proof (chain_of_fields _ _ _ _ _ _ Hf) as Hch.
  induction fuel as [|fuel IH]; intros h1 m Hm Ho Hc; simpl;
    rewrite contains_taken, Hc by done; simpl;
    rewrite (taken_only_coord _ _ _ _ _ _ _ Hr Ho);
    (assert (taken h es vx vy (if m is O then 0 else K + Z.of_nat m) = true) as ->;
     [apply Hch; split; [lia|]; destruct m as [|m]; [by left|]; right;
      exists (S m); split; [lia|done]|]); [done|].
  assert (∃ k h2, Coordinate.as_gatherer_coord r h1 = Return (k, h2)
                  ∧ k = K + Z.of_nat m) as (k & h2 & Hk & ->).
  { destruct m as [|m].
    - rewrite as_gatherer_coord_unset by (by rewrite Hc). rewrite Hc. simpl.
      rewrite Henc. do 2 eexists. split; [done|lia].
    - rewrite as_gatherer_coord_set; rewrite Hc; simpl; [|lia]. by do 2 eexists. }
  rewrite (bump_Return _ _ _ _ Hk), outcome_bind_Return.
  destruct (decide (S m = n)) as [E|E].
  - apply (IH _ 0%nat); [lia| |].
    + eapply only_coord_trans; [exact Ho|apply only_coord_insert].
    + rewrite lookup_total_insert_eq, Hc. unfold Coordinate.set_coord. simpl. f_equal. lia.
  - apply (IH _ (S m)); [lia| |].
    + eapply only_coord_trans; [exact Ho|apply only_coord_insert].
    + rewrite lookup_total_insert_eq, Hc. unfold Coordinate.set_coord. simpl. f_equal. lia.
Qed.

(** A position with a key [K] below zero takes [-K] samples and no more: when
    the bucket of the zone has [-K] entries at the position, with the fields
    that [add] has given them, [add] of one more sample at the position does
    not return, however many iterations the loop is given. *)
Theorem probing_below_zero_never_ends (fuel : nat) (self : Aggregate.t) (zone : Zone.t)
        (r : ref) (code : string) (h : heap) (l1 l2 : list GathererZone.t)
        (gz : GathererZone.t) (vx vy : float) (K : Z) (n : nat) :
  Aggregate.zones self = l1 ++ gz :: l2 →
  no_bucket zone l1 →
  Zone.eqb (GathererZone.zone gz) zone = true →
  r ∉ refs (GathererZone.entries gz) →
  h !!! r = Coordinate.new vx vy →
  Coordinate.encode vx vy = Return K →
  fields h (GathererZone.entries gz) vx vy = chain_fields K n →
  (0 < n)%nat → K + Z.of_nat n = 0 →
  Aggregate.add fuel self zone (GathererEntry.mk r code) h = Diverge.
Proof.
  intros E F Ez Hr Hc Henc Hf Hn HKn. unfold Aggregate.add.
  rewrite E, add_zones_found by done. simpl.
  by rewrite (probe_cycle r _ h vx vy K n Hr Henc Hf HKn fuel h 0%nat Hn
                (only_coord_refl _ _) Hc).
Qed.

Lemma probing_below_zero_never_ends_witness :
  Aggregate.add 1000 (Aggregate.mk "Herb" [below_zero_bucket]) (Zone.mk "Elwynn Forest" "37")
                (GathererEntry.mk 100%nat "401") below_zero_store = Diverge.
Proof.
  apply (probing_below_zero_never_ends 1000 (Aggregate.mk "Herb" [below_zero_bucket])
           (Zone.mk "Elwynn Forest" "37") 100%nat "401" below_zero_store [] [] below_zero_bucket
           0 (-0.01) (-100) 100).
  - reflexivity.
  - constructor.
  - reflexivity.
  - intros Hin. apply list_elem_of_fmap in Hin as (e & He & Hin).
    apply list_elem_of_fmap in Hin as (i & -> & Hi).
    apply list_elem_of_In, in_seq in Hi. simpl in He. lia.
  - by vm_compute.
  - by vm_compute.
  - by vm_compute.
  - lia.
  - lia.
Defined.

(** ** A position without a key *)





(** ** Printing an entry without a key *)

Lemma digits_value_not_Diverge (s : string) (acc : Z) : digits_value acc s ≠ Diverge.
Proof.
  revert acc. induction s as [|c s IH]; simpl; intros acc; [done|].
  destruct (digit_of_ascii c); [apply IH|done].
Qed.

Lemma int_not_Diverge (s : string) : int s ≠ Diverge.
Proof.
  pose proof digits_value_not_Diverge as D.
  destruct s as [|c s]; [done|]. unfold int.
  destruct (Ascii.eqb c "-") eqn:Em; [apply Ascii.eqb_eq in Em as ->|].
  - destruct s as [|c' s']; [apply D|].
    destruct (digits_value 0 (String c' s')) eqn:E; try done. by apply D in E.
  - destruct (Ascii.eqb c "+") eqn:Ep; [apply Ascii.eqb_eq in Ep as ->|].
    + destruct s as [|c' s']; apply D.
    + assert (c ≠ "-"%char) as Nm by (intros ->; by rewrite Ascii.eqb_refl in Em).
      assert (c ≠ "+"%char) as Np by (intros ->; by rewrite Ascii.eqb_refl in Ep).
      destruct c as [[] [] [] [] [] [] [] []]; try apply D; destruct s; try apply D; done.
Qed.

Lemma ids_not_Diverge (zs : list GathererZone.t) : Aggregate.ids zs ≠ Diverge.
Proof.
  induction zs as [|z zs IH]; simpl; [done|].
  destruct (int _) eqn:E; try done; [|by apply int_not_Diverge in E].
  simpl. by destruct (Aggregate.ids zs).
Qed.

Lemma sorted_zones_outcome (zs : list GathererZone.t) :
  (∃ zs', Aggregate.sorted_zones zs = Return zs' ∧ Permutation zs zs')
  ∨ ∃ e, Aggregate.sorted_zones zs = Raise e.
Proof.
  destruct (Aggregate.sorted_zones zs) as [zs'|e|] eqn:E.
  - left. exists zs'. split; [done|]. by apply sorted_zones_Return.
  - right. by exists e.
  - exfalso. revert E. unfold Aggregate.sorted_zones.
    destruct zs as [|z1 [|z2 zs]]; try done.
    destruct (Aggregate.ids _) eqn:E; try done. by apply ids_not_Diverge in E.
Qed.

Lemma keys_not_Diverge (es : list GathererEntry.t) (h : heap) :
  GathererZone.keys es h ≠ Diverge.
Proof.
  revert h. induction es as [|e es IH]; simpl; intros h; [done|].
  destruct (Coordinate.as_gatherer_coord _ _) as [[k h1]| |] eqn:E; try done.
  - rewrite outcome_bind_Return.
    destruct (GathererZone.keys es h1) as [[ks h2]| |] eqn:Ek; try done. by apply IH in Ek.
  - by apply as_gatherer_coord_not_Diverge in E.
Qed.

(** The reads of a bucket meet every entry: one without a key stops them. *)
Lemma keys_Raise (es : list GathererEntry.t) (e : GathererEntry.t) (x : exn) :
  e ∈ es →
  ∀ h : heap, key (GathererEntry.coordinate e) h = Raise x →
              ∃ x', GathererZone.keys es h = Raise x'.
Proof.
  induction es as [|e0 es IH]; intros Hin h Hk; [by apply elem_of_nil in Hin|].
  simpl. destruct (Coordinate.as_gatherer_coord (GathererEntry.coordinate e0) h)
    as [[k h1]|x0|] eqn:E0.
  - rewrite outcome_bind_Return.
    apply elem_of_cons in Hin as [->|Hin].
    + unfold key in Hk. by rewrite E0 in Hk.
    + destruct (IH Hin h1) as [x' Hx'].
      { by rewrite (key_preserved _ _ _ _ _ E0). }
      rewrite Hx'. by exists x'.
  - by exists x0.
  - by apply as_gatherer_coord_not_Diverge in E0.
Qed.

Lemma layout_zones_Raise (zs : list GathererZone.t) (gz : GathererZone.t)
      (e : GathererEntry.t) (x : exn) :
  gz ∈ zs → e ∈ GathererZone.entries gz →
  ∀ h : heap, key (GathererEntry.coordinate e) h = Raise x →
              ∃ x', Aggregate.layout_zones zs h = Raise x'.
Proof.
  intros Hgz He. induction zs as [|z zs IH]; intros h Hk; [by apply elem_of_nil in Hgz|].
  simpl. unfold GathererZone.sorted_entries.
  destruct (GathererZone.keys (GathererZone.entries z) h) as [[ks h1]|x0|] eqn:Ek.
  - rewrite !outcome_bind_Return.
    apply elem_of_cons in Hgz as [->|Hgz].
    + destruct (keys_Raise _ _ _ He h Hk) as [x' Hx']. by rewrite Hx' in Ek.
    + destruct (IH Hgz h1) as [x' Hx'].
      { destruct (keys_key _ _ _ _ Ek) as [_ P]. by rewrite P. }
      rewrite Hx'. by exists x'.
  - by exists x0.
  - by apply keys_not_Diverge in Ek.
Qed.

(** An entry without a key is found when the aggregate is printed, not when
    it is added: if the read of the key of an entry stored in the aggregate
    raises, [__repr__] of the aggregate raises and produces no text. *)
Theorem repr_raises_on_entry_without_key (self : Aggregate.t) (gz : GathererZone.t)
        (e : GathererEntry.t) (h : heap) (x : exn) :
  gz ∈ Aggregate.zones self →
  e ∈ GathererZone.entries gz →
  key (GathererEntry.coordinate e) h = Raise x →
  ∃ x', Aggregate.repr self h = Raise x'.
Proof.
  intros Hgz He Hk. unfold Aggregate.repr, Aggregate.layout.
  destruct (sorted_zones_outcome (Aggregate.zones self)) as [(zs' & -> & P)|[x' ->]];
    [|by exists x'].
  rewrite outcome_bind_Return.
  assert (gz ∈ zs') as Hgz' by (by rewrite <- P).
  destruct (layout_zones_Raise _ _ _ _ Hgz' He h Hk) as [x' ->]. by exists x'.
Qed.

Lemma repr_raises_on_entry_without_key_witness :
  ∃ x', Aggregate.repr
          (Aggregate.mk "Herb" [GathererZone.mk (Zone.mk "Elwynn Forest" "37")
                                  [GathererEntry.mk 0%nat "401"; GathererEntry.mk 1%nat "401"]])
          (heap_of [Coordinate.new 10 10; Coordinate.new 10 infinity])
        = Raise x'.
Proof.
  apply (repr_raises_on_entry_without_key _
           (GathererZone.mk (Zone.mk "Elwynn Forest" "37")
              [GathererEntry.mk 0%nat "401"; GathererEntry.mk 1%nat "401"])
           (GathererEntry.mk 1%nat "401") _ OverflowError).
  - by left.
  - right. by left.
  - by vm_compute.
Defined.

(** ** [sorted] through [__lt__] *)

Section SortedWithPure.
Context {A S : Type} (lt : A → A → S → outcome (bool * S)).
Context (k : A → Z) (P : A → Prop) (I : S → Prop).
Hypothesis lt_pure :
  ∀ a b s, P a → P b → I s → ∃ s', lt a b s = Return (k a <? k b, s') ∧ I s'.



End SortedWithPure.

Section SortedWithRaise.
Context {A S : Type} (lt : A → A → S → outcome (bool * S)).
Context (bad : A → Prop) (J : S → Prop).
Hypothesis lt_Diverge : ∀ a b s, lt a b s ≠ Diverge.
Hypothesis lt_J : ∀ a b s c s', J s → lt a b s = Return (c, s') → J s'.
Hypothesis lt_bad : ∀ a b s, J s → bad a ∨ bad b → ∃ x, lt a b s = Raise x.



End SortedWithRaise.

























